(** * generate_font.py: Unicode range selection for lv_font_conv

    A shallow embedding of [generate_font.py] and the properties of its
    range resolver [get_unicode_ranges] and of the command line that
    [main] hands to the external converter.

    Python values are modelled as follows.
    - [str] is [string]; the tables of the script are ASCII only.
    - [int] is [Z].
    - a [dict] with string keys is a [gmap string _], a [set] of strings
      is a [gset string].  Iterating a Python set visits each element
      once in an order the language leaves open: the order is a parameter
      ([set_iter]) of everything that iterates.
    - an exception is a value of [exn]; code that may raise returns a
      [result].
    - printing and running the subprocess are recorded as [event]s. *)

From Stdlib Require Import ZArith String Ascii List.
From Stdlib Require Import Numbers.DecimalString.
From stdpp Require Import base option list sorting gmap strings.

Local Open Scope string_scope.
Local Open Scope list_scope.
Local Open Scope Z_scope.

(** ** Exceptions and the error monad *)

Inductive exn :=
| ValueError (msg : string)
| KeyError (key : string)
| CalledProcessError (msg : string)
| FileNotFoundError.

Inductive result (A : Type) :=
| Ok (a : A)
| Raise (e : exn).
Arguments Ok {A} a.
Arguments Raise {A} e.

Definition bind {A B} (r : result A) (k : A → result B) : result B :=
  match r with
  | Ok a => k a
  | Raise e => Raise e
  end.

Notation "x ←r e1 ; e2" := (bind e1 (λ x, e2))
  (at level 20, e1 at level 100, e2 at level 200, right associativity,
   only parsing).
Notation "' pat ←r e1 ; e2" := (bind e1 (λ x, match x with pat => e2 end))
  (at level 20, pat pattern, e1 at level 100, e2 at level 200,
   right associativity, only parsing).

(** [for x in xs: st = body x st], stopping at the first exception. *)
Fixpoint for_each {A S} (xs : list A) (body : A → S → result S) (st : S)
  : result S :=
  match xs with
  | [] => Ok st
  | x :: xs' => st' ←r body x st; for_each xs' body st'
  end.

(** [[f(x) for x in xs]], stopping at the first exception. *)
Fixpoint map_result {A B} (f : A → result B) (xs : list A)
  : result (list B) :=
  match xs with
  | [] => Ok []
  | x :: xs' => y ←r f x; ys ←r map_result f xs'; Ok (y :: ys)
  end.

(** ** The string operations of Python the script uses *)

(** [s.split(sep)] for a separator of one character. *)
Fixpoint str_split (sep : ascii) (s : string) : list string :=
  match s with
  | EmptyString => [""]
  | String c s' =>
      if Ascii.eqb c sep then "" :: str_split sep s'
      else match str_split sep s' with
           | [] => [String c ""]
           | w :: ws => String c w :: ws
           end
  end.

(** [sep.join(parts)]. *)
Fixpoint str_join (sep : string) (parts : list string) : string :=
  match parts with
  | [] => ""
  | x :: rest =>
      match rest with
      | [] => x
      | _ :: _ => x +:+ sep +:+ str_join sep rest
      end
  end.

(** [str(n)] for an [int]. *)
Definition str_of_int (n : Z) : string :=
  NilZero.string_of_int (Z.to_int n).

(** [bool(s)] for a [str]: the empty string is false. *)
Definition truthy (s : string) : bool :=
  match s with
  | EmptyString => false
  | String _ _ => true
  end.

(** *** [int(s, 16)]

    CPython's [PyLong_FromString] at base 16: surrounding white space is
    dropped, one sign is read, then an optional [0x] or [0X] (after
    which one underscore may follow), then hexadecimal digits in which
    single underscores may separate digits.  Anything else is a
    [ValueError].  Only ASCII input is covered. *)

Definition is_space (c : ascii) : bool :=
  let n := N_of_ascii c in
  ((9 <=? n) && (n <=? 13) || (28 <=? n) && (n <=? 32))%N.

Definition hex_digit (c : ascii) : option Z :=
  let n := Z.of_N (N_of_ascii c) in
  if (48 <=? n) && (n <=? 57) then Some (n - 48)
  else if (97 <=? n) && (n <=? 102) then Some (n - 87)
  else if (65 <=? n) && (n <=? 70) then Some (n - 55)
  else None.

Fixpoint skip_space (s : string) : string :=
  match s with
  | String c s' => if is_space c then skip_space s' else s
  | EmptyString => s
  end.

Definition read_sign (s : string) : Z * string :=
  match s with
  | String "+" s' => (1, s')
  | String "-" s' => (-1, s')
  | _ => (1, s)
  end.

Definition skip_prefix16 (s : string) : string :=
  match s with
  | String "0" (String c s') =>
      if Ascii.eqb c "x" || Ascii.eqb c "X" then
        match s' with
        | String "_" s'' => s''
        | _ => s'
        end
      else s
  | _ => s
  end.

(** Reads digits and underscores; gives the value, the number of digits
    and the unread rest, or [None] at a doubled or trailing underscore. *)
Fixpoint scan_digits16 (s : string) (prev_us : bool) (acc : Z) (n : nat)
  : option (Z * nat * string) :=
  match s with
  | EmptyString => if prev_us then None else Some (acc, n, s)
  | String c s' =>
      if Ascii.eqb c "_" then
        if prev_us then None else scan_digits16 s' true acc n
      else
        match hex_digit c with
        | Some d => scan_digits16 s' false (16 * acc + d) (S n)
        | None => if prev_us then None else Some (acc, n, s)
        end
  end.

Definition invalid_literal (s : string) : exn :=
  ValueError ("invalid literal for int() with base 16: '" +:+ s +:+ "'").

Definition int16 (s : string) : result Z :=
  let '(sign, s1) := read_sign (skip_space s) in
  let s2 := skip_prefix16 s1 in
  match s2 with
  | String "_" _ => Raise (invalid_literal s)
  | _ =>
      match scan_digits16 s2 false 0 0 with
      | Some (v, S _, rest) =>
          match skip_space rest with
          | EmptyString => Ok (sign * v)
          | String _ _ => Raise (invalid_literal s)
          end
      | _ => Raise (invalid_literal s)
      end
  end.

(** [os.path.join(a, b)] on POSIX. *)
Definition ends_with_slash (s : string) : bool :=
  match String.get (String.length s - 1) s with
  | Some "/"%char => true
  | _ => false
  end.

Definition path_join (a b : string) : string :=
  match b with
  | String "/" _ => b
  | _ =>
      if negb (truthy a) || ends_with_slash a then a +:+ b
      else a +:+ "/" +:+ b
  end.

(** ** The static tables *)

(** Private Use Area for Nerd Fonts *)
Definition NERD_FONT_RANGE : string := "0xE000-0xF8FF".

(** [split_range]: [start, end = range_str.split("-")] needs exactly two
    parts; each is read by [int(_, 16)], [start] first. *)
Definition split_range (range_str : string) : result (Z * Z) :=
  match str_split "-" range_str with
  | [start; end_] =>
      s ←r int16 start;
      e ←r int16 end_;
      Ok (s, e)
  | [] | [_] =>
      Raise (ValueError
        ("not enough values to unpack (expected 2, got "
           +:+ str_of_int (Z.of_nat (List.length (str_split "-" range_str)))
           +:+ ")"))
  | _ => Raise (ValueError "too many values to unpack (expected 2)")
  end.

(** A dict display: later entries overwrite earlier ones of the same key. *)
Definition dict {V} (items : list (string * V)) : gmap string V :=
  fold_left (λ m kv, <[kv.1 := kv.2]> m) items ∅.

(** Unicode ranges for different scripts *)
Definition UNICODE_RANGES_items : list (string * string) :=
  [ ("latin", "0x20-0x7E");
    ("latin_extended", "0xA0-0xFF");
    ("cyrillic", "0x0400-0x04FF");
    ("greek", "0x0370-0x03FF");
    ("japanese", "0x3040-0x309F,0x30A0-0x30FF,0x4E00-0x9FFF");
    ("korean", "0xAC00-0xD7AF");
    ("chinese", "0x4E00-0x9FFF");
    ("devanagari", "0x0900-0x097F");
    ("emoji",
       "0x2190-0x21FF,"
    +:+ "0x2300-0x23FF,"
    +:+ "0x2500-0x257F,"
    +:+ "0x2600-0x26FF,"
    +:+ "0x1F000-0x1F02F,"
    +:+ "0x1F0A0-0x1F0FF,"
    +:+ "0x1F100-0x1F1FF,"
    +:+ "0x1F200-0x1F2FF,"
    +:+ "0x1F300-0x1F9FF,"
    +:+ "0x1FA00-0x1FA6F,"
    +:+ "0x1FA70-0x1FAFF") ].

Definition UNICODE_RANGES : gmap string string := dict UNICODE_RANGES_items.

(** Map languages to their required Unicode ranges *)
Definition LANGUAGE_RANGES_items : list (string * list string) :=
  [ ("cs", ["latin"; "latin_extended"]);
    ("de_DE", ["latin"; "latin_extended"]);
    ("el", ["latin"; "greek"]);
    ("en_GB", ["latin"]);
    ("en_US", ["latin"]);
    ("en_x_pirate", ["latin"]);
    ("es", ["latin"; "latin_extended"]);
    ("fil", ["latin"]);
    ("fr", ["latin"; "latin_extended"]);
    ("hi", ["latin"; "devanagari"]);
    ("ID", ["latin"]);
    ("it_IT", ["latin"; "latin_extended"]);
    ("ja", ["latin"; "japanese"]);
    ("ko", ["latin"; "korean"]);
    ("nl", ["latin"; "latin_extended"]);
    ("pl", ["latin"; "latin_extended"]);
    ("pt_BR", ["latin"; "latin_extended"]);
    ("ru", ["latin"; "cyrillic"]);
    ("sv", ["latin"; "latin_extended"]);
    ("tr", ["latin"; "latin_extended"]);
    ("zh_Latn_pinyin", ["latin"; "latin_extended"]) ].

Definition LANGUAGE_RANGES : gmap string (list string) :=
  dict LANGUAGE_RANGES_items.

(** [d[key]]: a missing key raises [KeyError]. *)
Definition getitem {V} (d : gmap string V) (key : string) : result V :=
  match d !! key with
  | Some v => Ok v
  | None => Raise (KeyError key)
  end.

(** [l.sort(key=f)]: the keys are computed first, one call of [f] per
    element; the sort is stable.  [insert_by_key] puts an element before
    the first one whose key is not smaller, so that inserting from the
    right end keeps equal keys in their original order. *)
Fixpoint insert_by_key {A} (x : Z * A) (l : list (Z * A)) : list (Z * A) :=
  match l with
  | [] => [x]
  | y :: l' => if x.1 <=? y.1 then x :: l else y :: insert_by_key x l'
  end.

Definition stable_sort {A} (l : list (Z * A)) : list (Z * A) :=
  foldr insert_by_key [] l.

Definition sort_by_key {A} (key : A → result Z) (l : list A)
  : result (list A) :=
  keyed ←r map_result (λ x, k ←r key x; Ok (k, x)) l;
  Ok ((stable_sort keyed).*2).

(** ** The range resolver *)

Section resolver.
(** The order in which [for range_str in ranges] visits a set. *)
Variable set_iter : gset string → list string.

Definition get_unicode_ranges (language : string)
  : result (string * string) :=
  match LANGUAGE_RANGES !! language with
  | None => Raise (ValueError ("Unsupported language: " +:+ language))
  | Some scripts =>
      let ranges : gset string := ∅ in
      (* Always include emoji ranges *)
      emoji ←r getitem UNICODE_RANGES "emoji";
      let ranges := ranges ∪ {[ emoji ]} in
      ranges ←r for_each scripts
        (λ script ranges,
           group ←r getitem UNICODE_RANGES script;
           Ok (ranges ∪ {[ group ]}))
        ranges;
      (* Split ranges into low (unifont) and high (unifont_upper) ranges *)
      '(low_ranges, high_ranges) ←r for_each (set_iter ranges)
        (λ range_str st,
           for_each (str_split "," range_str)
             (λ part (st : list string * list string),
                let '(low_ranges, high_ranges) := st in
                '(start, _) ←r split_range part;
                (* Use unifont_upper for anything above 0x10000 *)
                if 0x10000 <=? start
                then Ok (low_ranges, high_ranges ++ [part])
                else Ok (low_ranges ++ [part], high_ranges))
             st)
        ([], []);
      (* Sort ranges for better subtable organization *)
      low_ranges ←r
        sort_by_key (λ x, '(start, _) ←r split_range x; Ok start)
          low_ranges;
      high_ranges ←r
        sort_by_key (λ x, '(start, _) ←r split_range x; Ok start)
          high_ranges;
      Ok (str_join "," low_ranges, str_join "," high_ranges)
  end.
End resolver.

(** ** The command line tool *)

(** The namespace [parser.parse_args()] returns. *)
Record args := {
  language : string;
  output : string;
  size : Z;
  bpp : Z;
}.

Inductive event :=
| Print (line : string)
| SubprocessRun (cmd : list string).

(** A computation that leaves a trace of events and returns or raises. *)
Definition io (A : Type) : Type := list event * result A.

Definition io_ret {A} (a : A) : io A := ([], Ok a).

Definition io_bind {A B} (m : io A) (k : A → io B) : io B :=
  match m with
  | (t, Ok a) => let '(t', r) := k a in (t ++ t', r)
  | (t, Raise e) => (t, Raise e)
  end.

Definition io_lift {A} (r : result A) : io A := ([], r).

Definition print (line : string) : io unit := ([Print line], Ok tt).

(** [try: body except ...: handler]; [handler e = None] when no clause
    matches [e]. *)
Definition try_except {A} (body : io A) (handler : exn → option (io A))
  : io A :=
  match body with
  | (t, Ok a) => (t, Ok a)
  | (t, Raise e) =>
      match handler e with
      | Some h => let '(t', r) := h in (t ++ t', r)
      | None => (t, Raise e)
      end
  end.

Notation "x ←io e1 ; e2" := (io_bind e1 (λ x, e2))
  (at level 20, e1 at level 100, e2 at level 200, right associativity,
   only parsing).
Notation "' pat ←io e1 ; e2" :=
  (io_bind e1 (λ x, match x with pat => e2 end))
  (at level 20, pat pattern, e1 at level 100, e2 at level 200,
   right associativity, only parsing).
Notation "e1 ;;io e2" := (io_bind e1 (λ _, e2))
  (at level 100, e2 at level 200, right associativity, only parsing).

Section tool.
Variable set_iter : gset string → list string.
(** [os.path.dirname(os.path.abspath(__file__))] *)
Variable SCRIPT_DIR : string.
(** What [subprocess.run(cmd, check=True)] does with a command:
    [None] when it returns, [Some e] when it raises [e]. *)
Variable subprocess_run : list string → option exn.

Definition UNIFONT_PATH : string :=
  path_join SCRIPT_DIR "fonts/unifont-16.0.02.otf".
Definition UNIFONT_UPPER_PATH : string :=
  path_join SCRIPT_DIR "fonts/unifont_upper-16.0.02.otf".
Definition UNIFONT_JP_PATH : string :=
  path_join SCRIPT_DIR "fonts/unifont_jp-16.0.02.otf".
Definition NERD_FONT_PATH : string :=
  path_join SCRIPT_DIR "fonts/SymbolsNerdFontMono-Regular.ttf".

Definition run (cmd : list string) : io unit :=
  ([SubprocessRun cmd],
   match subprocess_run cmd with
   | None => Ok tt
   | Some e => Raise e
   end).

(** Lines 117 to 148 of [main]: the argument list. *)
Definition build_cmd (a : args) (low_ranges high_ranges : string)
  : list string :=
  (* For Japanese, use unifont_jp instead of unifont *)
  let base_font :=
    if String.eqb (language a) "ja" then UNIFONT_JP_PATH
    else UNIFONT_PATH in
  let cmd :=
    [ "lv_font_conv"; "--font"; base_font; "--autohint-off"; "-r";
      low_ranges ] in
  (* Add high ranges with upper font if needed *)
  let cmd :=
    if truthy high_ranges
    then cmd ++ [ "--font"; UNIFONT_UPPER_PATH; "--autohint-off"; "-r";
                  high_ranges ]
    else cmd in
  (* Add Nerd Font with private use area *)
  let cmd := cmd ++ [ "--font"; NERD_FONT_PATH; "-r"; NERD_FONT_RANGE ] in
  (* Add common arguments *)
  let cmd :=
    cmd ++ [ "--size"; str_of_int (size a); "--format"; "bin"; "--bpp";
             str_of_int (bpp a); "--no-compress"; "-o"; output a ] in
  cmd.

(** [main].  The [return 0] that follows the [try] statement is the last
    step of the protected block here: it cannot raise, so the handlers
    see the same exceptions. *)
Definition main (a : args) : io Z :=
  '(low_ranges, high_ranges) ←io
    io_lift (get_unicode_ranges set_iter (language a));
  let cmd := build_cmd a low_ranges high_ranges in
  try_except
    (print "Running command:";;io
     print (str_join " " cmd);;io
     run cmd;;io
     print ("Generated font for " +:+ language a +:+ " at " +:+ output a);;io
     io_ret 0)
    (λ e,
       match e with
       | CalledProcessError msg =>
           Some (print ("Error running lv_font_conv: " +:+ msg);;io
                 io_ret 1)
       | FileNotFoundError =>
           Some (print ("Error: lv_font_conv not found. "
                        +:+ "Please install it using: "
                        +:+ "npm install -g lv_font_conv");;io
                 io_ret 1)
       | _ => None
       end).
End tool.

(** * Definitions used by the statements and proofs *)

(** The order on keyed elements that [stable_sort] establishes. *)
Definition key_le {A} : relation (Z * A) := λ x y, x.1 ≤ y.1.

(** The start value of an interval token, 0 when it does not parse. *)
Definition start_of (part : string) : Z :=
  match split_range part with
  | Ok (start, _) => start
  | Raise _ => 0
  end.

(** The token is accepted by [split_range]. *)
Definition parses (part : string) : Prop :=
  ∃ se, split_range part = Ok se.

Instance parses_dec part : Decision (parses part).
Proof.
  unfold parses. destruct (split_range part) as [se|e].
  - left. by exists se.
  - right. by intros [? ?].
Defined.

(** The two sides of the test [start >= 0x10000] of line 95. *)
Definition is_low (part : string) : Prop := start_of part < 0x10000.
Definition is_high (part : string) : Prop := 0x10000 ≤ start_of part.

Instance is_low_dec part : Decision (is_low part) := _.
Instance is_high_dec part : Decision (is_high part) := _.

(** The body of the inner loop, lines 93 to 98. *)
Definition place (part : string) (st : list string * list string)
  : result (list string * list string) :=
  let '(low_ranges, high_ranges) := st in
  '(start, _) ←r split_range part;
  if 0x10000 <=? start
  then Ok (low_ranges, high_ranges ++ [part])
  else Ok (low_ranges ++ [part], high_ranges).

(** The sort key [lambda x: split_range(x)[0]]. *)
Definition start_key (x : string) : result Z :=
  '(start, _) ←r split_range x; Ok start.

(** A list sorted by [start_of], as [sort(key=...)] leaves it. *)
Definition sorted_by_start (parts : list string) : list string :=
  (stable_sort ((λ x, (start_of x, x)) <$> parts)).*2.

(** Lines 81 to 85: the set of group strings of a profile. *)
Definition selected_ranges (scripts : list string) : result (gset string) :=
  emoji ←r getitem UNICODE_RANGES "emoji";
  for_each scripts
    (λ script ranges,
       group ←r getitem UNICODE_RANGES script;
       Ok (ranges ∪ {[ group ]}))
    (∅ ∪ {[ emoji ]}).

(** The interval tokens in the order the two loops visit them. *)
Definition tokens (order : list string) : list string :=
  order ≫= str_split ",".

(** Lines 88 to 104, for the groups visited in a given order. *)
Definition partition_sort_join (order : list string)
  : result (string * string) :=
  '(low_ranges, high_ranges) ←r
    for_each order
      (λ range_str st, for_each (str_split "," range_str) place st)
      ([], []);
  low_ranges ←r sort_by_key start_key low_ranges;
  high_ranges ←r sort_by_key start_key high_ranges;
  Ok (str_join "," low_ranges, str_join "," high_ranges).

(** A set may be visited in any order that meets each element once. *)
Definition visits_each_once (set_iter : gset string → list string) : Prop :=
  ∀ s, set_iter s ≡ₚ elements s.

(** All tokens of a profile parse and no two start at the same value. *)
Definition profile_ok (scripts : list string) : bool :=
  match selected_ranges scripts with
  | Ok ranges =>
      bool_decide (Forall parses (tokens (elements ranges)))
      && bool_decide (NoDup (start_of <$> tokens (elements ranges)))
  | Raise _ => false
  end.

(** The interval tokens of a named group. *)
Definition group_tokens (name : string) : list string :=
  match UNICODE_RANGES !! name with
  | Some group => str_split "," group
  | None => []
  end.

(** Decides a closed decidable statement by evaluation. *)
Ltac by_computation := apply (bool_decide_unpack _); vm_compute; exact I.

(** Ascending order of start values. *)
Definition start_le (x y : string) : Prop := start_of x ≤ start_of y.

Instance start_le_dec x y : Decision (start_le x y).
Proof. unfold start_le. apply _. Defined.

(** The tokens of all groups of [UNICODE_RANGES]. *)
Definition table_tokens : list string :=
  map_to_list UNICODE_RANGES ≫= λ kv, str_split "," kv.2.

(** An interval token parses to [(start, end)] with
    [0 <= start <= end], [start] below 2^32, and both ends on one side
    of 0x10000. *)
Definition well_formed_interval (tok : string) : Prop :=
  ∃ start end_,
    split_range tok = Ok (start, end_)
    ∧ 0 ≤ start ≤ end_
    ∧ start < 2 ^ 32
    ∧ (start < 0x10000 ↔ end_ < 0x10000).

(** The same as a test that computes. *)
Definition interval_ok (tok : string) : bool :=
  match split_range tok with
  | Ok (start, end_) =>
      (0 <=? start) && (start <=? end_) && (start <? 2 ^ 32)
      && Bool.eqb (start <? 0x10000) (end_ <? 0x10000)
  | Raise _ => false
  end.

(** The event is a printed line, not a subprocess. *)
Definition is_print (ev : event) : Prop :=
  match ev with
  | Print _ => True
  | SubprocessRun _ => False
  end.

(** The seven emoji intervals that start at or above 0x10000. *)
Definition HIGH_EMOJI : string :=
  "0x1F000-0x1F02F,0x1F0A0-0x1F0FF,0x1F100-0x1F1FF,0x1F200-0x1F2FF,"
  +:+ "0x1F300-0x1F9FF,0x1FA00-0x1FA6F,0x1FA70-0x1FAFF".

(** The character occurs in the string. *)
Fixpoint has_char (c : ascii) (s : string) : bool :=
  match s with
  | EmptyString => false
  | String c' s' => Ascii.eqb c' c || has_char c s'
  end.


(** Sample arguments and outcomes of the converter, for the examples. *)
Definition args_en_US : args :=
  {| language := "en_US"; output := "font.bin"; size := 16; bpp := 1 |}.

Definition LOW_EN_US : string :=
  "0x20-0x7E,0x2190-0x21FF,0x2300-0x23FF,0x2500-0x257F,0x2600-0x26FF".

Definition run_completes : list string → option exn := λ _, None.

Definition run_exits_nonzero : list string → option exn :=
  λ _, Some (CalledProcessError "returned non-zero exit status 1").

Definition run_not_found : list string → option exn :=
  λ _, Some FileNotFoundError.

Definition run_rejects_arguments : list string → option exn :=
  λ _, Some (ValueError "embedded null byte").

(** The font files, relative to the directory of the script. *)
Definition FONT_FILES : list string :=
  [ "fonts/unifont-16.0.02.otf"; "fonts/unifont_upper-16.0.02.otf";
    "fonts/unifont_jp-16.0.02.otf"; "fonts/SymbolsNerdFontMono-Regular.ttf" ].

(** * Properties *)

(** ** The model on concrete inputs *)

Example int16_accepts :
  int16 "0x4E00" = Ok 19968 ∧ int16 "0X10" = Ok 16
  ∧ int16 " +0x_1F_0 " = Ok 496 ∧ int16 "ff" = Ok 255.
Proof. repeat split; reflexivity. Qed.

Example int16_rejects :
  int16 "0x" = Raise (invalid_literal "0x")
  ∧ int16 "1__0" = Raise (invalid_literal "1__0")
  ∧ int16 "10_" = Raise (invalid_literal "10_")
  ∧ int16 "" = Raise (invalid_literal "").
Proof. repeat split; reflexivity. Qed.

Example split_range_examples :
  split_range "0x1F300-0x1F9FF" = Ok (127744, 129535)
  ∧ split_range "0x0400-0x04FF" = Ok (1024, 1279)
  ∧ split_range "1-2-3"
    = Raise (ValueError "too many values to unpack (expected 2)").
Proof. repeat split; reflexivity. Qed.

Example str_split_join_examples :
  str_split "," "" = [""]
  ∧ str_split "," "a,,b," = ["a"; ""; "b"; ""]
  ∧ str_join "," ["a"; "b"; "c"] = "a,b,c"
  ∧ str_join "," [] = "".
Proof. repeat split; reflexivity. Qed.

(** Elements of equal key keep their order, as in Python's sort. *)
Example partition_sort_join_stable :
  partition_sort_join ["0x30-0x40,0x20-0x25"; "0x20-0x21"]
  = Ok ("0x20-0x25,0x20-0x21,0x30-0x40", "")
  ∧ partition_sort_join ["0x20-0x21"; "0x30-0x40,0x20-0x25"]
    = Ok ("0x20-0x21,0x20-0x25,0x30-0x40", "").
Proof. split; vm_compute; reflexivity. Qed.

Example get_unicode_ranges_ru :
  get_unicode_ranges elements "ru"
  = Ok ("0x20-0x7E,0x0400-0x04FF,0x2190-0x21FF,0x2300-0x23FF,"
        +:+ "0x2500-0x257F,0x2600-0x26FF",
        HIGH_EMOJI).
Proof. vm_compute. reflexivity. Qed.

(** ** The loops and the sort *)

Lemma bind_ok {A B} (r : result A) (k : A → result B) b :
  bind r k = Ok b ↔ ∃ a, r = Ok a ∧ k a = Ok b.
Proof.
  destruct r as [a|e]; simpl; split.
  - eauto.
  - by intros (? & [= <-] & ?).
  - done.
  - by intros (? & ? & ?).
Qed.

Lemma for_each_app {A S} (xs ys : list A) (body : A → S → result S) st :
  for_each (xs ++ ys) body st = st' ←r for_each xs body st; for_each ys body st'.
Proof.
  revert st. induction xs as [|x xs IH]; intros st; simpl; [done|].
  destruct (body x st); simpl; auto.
Qed.

(** Two nested [for] loops visit the concatenation of the inner lists. *)
Lemma for_each_nested {A B S} (f : A → list B) (xs : list A)
    (body : B → S → result S) st :
  for_each xs (λ x st, for_each (f x) body st) st
  = for_each (xs ≫= f) body st.
Proof.
  revert st. induction xs as [|x xs IH]; intros st; [done|].
  cbn [mbind list_bind for_each]. rewrite for_each_app.
  destruct (for_each (f x) body st); simpl; auto.
Qed.

Lemma for_each_place parts low high :
  Forall parses parts →
  for_each parts place (low, high)
  = Ok (low ++ filter is_low parts, high ++ filter is_high parts).
Proof.
  intros Hall. revert low high.
  induction Hall as [|part parts [[s e] Hp] _ IH]; intros low high.
  { simpl. by rewrite !app_nil_r. }
  assert (start_of part = s) as Hs by (unfold start_of; by rewrite Hp).
  cbn [for_each]. unfold place at 1. rewrite Hp. cbn [bind].
  rewrite !filter_cons.
  destruct (decide (is_low part)) as [Hl|Hl],
    (decide (is_high part)) as [Hh|Hh];
    unfold is_low, is_high in Hl, Hh; rewrite Hs in Hl, Hh;
    destruct (Z.leb_spec 0x10000 s); try lia;
    cbn [bind]; by rewrite IH, <-app_assoc.
Qed.

Lemma map_result_keys parts :
  Forall parses parts →
  map_result (λ x, k ←r start_key x; Ok (k, x)) parts
  = Ok ((λ x, (start_of x, x)) <$> parts).
Proof.
  induction 1 as [|part parts [[s e] Hp] _ IH]; simpl; [done|].
  rewrite IH. unfold start_key, start_of. by rewrite Hp.
Qed.

Lemma sort_by_key_start parts :
  Forall parses parts →
  sort_by_key start_key parts = Ok (sorted_by_start parts).
Proof.
  intros Hall. unfold sort_by_key. by rewrite (map_result_keys _ Hall).
Qed.

Section stable_sort.
Context {A : Type}.
Implicit Types (x : Z * A) (l : list (Z * A)).

Lemma insert_by_key_Permutation x l : insert_by_key x l ≡ₚ x :: l.
Proof.
  induction l as [|y l IH]; simpl; [done|].
  destruct (x.1 <=? y.1); [done|]. by rewrite IH, Permutation_swap.
Qed.

Lemma stable_sort_Permutation l : stable_sort l ≡ₚ l.
Proof.
  induction l as [|x l IH]; simpl; [done|].
  by rewrite insert_by_key_Permutation, IH.
Qed.

Lemma insert_by_key_sorted x l :
  StronglySorted key_le l → StronglySorted key_le (insert_by_key x l).
Proof.
  induction 1 as [|y l Hl IH Hy]; simpl.
  { repeat constructor. }
  destruct (Z.leb_spec x.1 y.1).
  - constructor; [by constructor|].
    constructor; [done|].
    eapply Forall_impl; [exact Hy|]. unfold key_le. intros; lia.
  - constructor; [done|].
    rewrite insert_by_key_Permutation. constructor; [|done].
    unfold key_le. lia.
Qed.

Lemma stable_sort_sorted l : StronglySorted key_le (stable_sort l).
Proof.
  induction l as [|x l IH]; simpl; [constructor|].
  by apply insert_by_key_sorted.
Qed.

(** Stability: elements of equal key keep their order.  Stated for the
    sublist of the elements of one key. *)
Lemma insert_by_key_filter (P : Z * A → Prop) `{!∀ x, Decision (P x)} x l :
  (∀ y, y ∈ l → P y → P x → x.1 ≤ y.1) →
  filter P (insert_by_key x l) = filter P (x :: l).
Proof.
  induction l as [|y l IH]; intros Hle; simpl; [done|].
  destruct (Z.leb_spec x.1 y.1); [done|].
  rewrite !filter_cons. rewrite filter_cons in IH.
  destruct (decide (P y)) as [Hy|Hy].
  - destruct (decide (P x)) as [Hx|Hx].
    + assert (x.1 ≤ y.1) by (apply Hle; [by left|done..]). lia.
    + rewrite IH; [done|]. intros z Hz. apply Hle. by right.
  - rewrite IH; [done|]. intros z Hz. apply Hle. by right.
Qed.

Lemma stable_sort_stable k l :
  filter (λ x, x.1 = k) (stable_sort l) = filter (λ x, x.1 = k) l.
Proof.
  induction l as [|x l IH]; simpl; [done|].
  rewrite insert_by_key_filter.
  - by rewrite !filter_cons, IH.
  - intros y _ Hy Hx. simpl in *. lia.
Qed.

(** With distinct keys the order of the input does not matter. *)
Lemma stable_sort_unique l1 l2 :
  l1 ≡ₚ l2 → NoDup (l2.*1) → stable_sort l1 = stable_sort l2.
Proof.
  intros Hperm Hnd.
  apply (StronglySorted_unique_strong key_le).
  - intros x1 x2 Hx1 Hx2 H12 H21. unfold key_le in *.
    rewrite stable_sort_Permutation, Hperm in Hx1.
    rewrite stable_sort_Permutation in Hx2.
    apply list_elem_of_lookup in Hx1 as [i Hi].
    apply list_elem_of_lookup in Hx2 as [j Hj].
    assert (i = j) as ->; [|congruence].
    eapply NoDup_lookup; [exact Hnd| |].
    + rewrite list_lookup_fmap, Hi. reflexivity.
    + rewrite list_lookup_fmap, Hj. simpl. f_equal. lia.
  - apply stable_sort_sorted.
  - apply stable_sort_sorted.
  - by rewrite !stable_sort_Permutation.
Qed.
End stable_sort.

Lemma sorted_by_start_Permutation parts : sorted_by_start parts ≡ₚ parts.
Proof.
  unfold sorted_by_start. rewrite stable_sort_Permutation.
  rewrite <-list_fmap_compose. simpl.
  by rewrite list_fmap_id.
Qed.

Lemma sorted_by_start_sorted parts :
  StronglySorted (λ x y, start_of x ≤ start_of y) (sorted_by_start parts).
Proof.
  unfold sorted_by_start.
  assert (Forall (λ x : Z * string, x.1 = start_of x.2)
            (stable_sort ((λ x, (start_of x, x)) <$> parts))) as Hkeys.
  { rewrite stable_sort_Permutation. apply Forall_fmap.
    by apply Forall_true. }
  pose proof (stable_sort_sorted ((λ x, (start_of x, x)) <$> parts)) as Hs.
  induction Hs as [|x l Hl IH Hx]; simpl; [constructor|].
  apply Forall_cons in Hkeys as [Hk Hkeys].
  constructor; [by apply IH|].
  apply Forall_fmap.
  apply (Forall_impl (λ y, key_le x y ∧ y.1 = start_of y.2));
    [by apply Forall_and|].
  intros y [Hxy Hy]. unfold key_le in Hxy. simpl. by rewrite <-Hk, <-Hy.
Qed.

Lemma sorted_by_start_unique parts1 parts2 :
  parts1 ≡ₚ parts2 → NoDup (start_of <$> parts2) →
  sorted_by_start parts1 = sorted_by_start parts2.
Proof.
  intros Hperm Hnd. unfold sorted_by_start. f_equal.
  apply stable_sort_unique; [by rewrite Hperm|].
  by rewrite <-list_fmap_compose.
Qed.

(** ** The resolver in two steps *)

Lemma get_unicode_ranges_unfold set_iter language :
  get_unicode_ranges set_iter language
  = match LANGUAGE_RANGES !! language with
    | None => Raise (ValueError ("Unsupported language: " +:+ language))
    | Some scripts =>
        ranges ←r selected_ranges scripts;
        partition_sort_join (set_iter ranges)
    end.
Proof.
  unfold get_unicode_ranges, selected_ranges.
  destruct (LANGUAGE_RANGES !! language) as [scripts|]; [|done].
  destruct (getitem UNICODE_RANGES "emoji") as [emoji|]; [|done].
  cbn [bind]. by destruct (for_each scripts _ _).
Qed.

Lemma Forall_filter_keep {A} (P Q : A → Prop) `{!∀ x, Decision (Q x)} l :
  Forall P l → Forall P (filter Q l).
Proof.
  rewrite !Forall_forall. intros Hall x [_ Hx]%list_elem_of_filter. auto.
Qed.

Lemma partition_sort_join_ok order :
  Forall parses (tokens order) →
  partition_sort_join order
  = Ok (str_join "," (sorted_by_start (filter is_low (tokens order))),
        str_join "," (sorted_by_start (filter is_high (tokens order)))).
Proof.
  intros Hall. unfold partition_sort_join.
  rewrite for_each_nested. fold (tokens order).
  rewrite (for_each_place _ _ _ Hall). cbn [bind app].
  rewrite !sort_by_key_start; [done|..]; by apply Forall_filter_keep.
Qed.

(** The order in which the set is visited does not show in the result
    when the tokens parse and no two of them start at the same value. *)
Lemma partition_sort_join_perm order1 order2 :
  order1 ≡ₚ order2 →
  Forall parses (tokens order2) →
  NoDup (start_of <$> tokens order2) →
  partition_sort_join order1 = partition_sort_join order2.
Proof.
  intros Hperm Hall Hnd.
  assert (tokens order1 ≡ₚ tokens order2) as Htok.
  { unfold tokens. by rewrite Hperm. }
  rewrite !partition_sort_join_ok; [|done|by rewrite Htok].
  assert (∀ (P : string → Prop) `{!∀ x, Decision (P x)},
            NoDup (start_of <$> filter P (tokens order2))) as Hsub.
  { intros P ?. eapply sublist_NoDup; [exact Hnd|].
    apply fmap_sublist, sublist_filter. }
  do 2 f_equal; f_equal;
    (apply sorted_by_start_unique; [by rewrite Htok|apply Hsub]).
Qed.

(** ** The tables, checked entry by entry *)

Lemma LANGUAGE_RANGES_lookup language scripts :
  LANGUAGE_RANGES !! language = Some scripts →
  (language, scripts) ∈ LANGUAGE_RANGES_items.
Proof.
  intros Hl. apply elem_of_map_to_list in Hl.
  assert (Forall (.∈ LANGUAGE_RANGES_items) (map_to_list LANGUAGE_RANGES))
    as Hall.
  { apply (bool_decide_unpack _). vm_compute. exact I. }
  rewrite Forall_forall in Hall. auto.
Qed.

Lemma LANGUAGE_RANGES_profile_ok language scripts :
  LANGUAGE_RANGES !! language = Some scripts → profile_ok scripts = true.
Proof.
  intros Hl%LANGUAGE_RANGES_lookup.
  assert (Forall (λ kv, profile_ok kv.2 = true) LANGUAGE_RANGES_items)
    as Hall.
  { apply (bool_decide_unpack _). vm_compute. exact I. }
  rewrite Forall_forall in Hall. exact (Hall _ Hl).
Qed.

(** The result does not depend on how the set is visited. *)
Lemma get_unicode_ranges_order set_iter language :
  visits_each_once set_iter →
  get_unicode_ranges set_iter language = get_unicode_ranges elements language.
Proof.
  intros Hiter. rewrite !get_unicode_ranges_unfold.
  destruct (LANGUAGE_RANGES !! language) as [scripts|] eqn:Hl; [|done].
  apply LANGUAGE_RANGES_profile_ok in Hl. unfold profile_ok in Hl.
  destruct (selected_ranges scripts) as [ranges|]; [|done]. cbn [bind].
  apply andb_prop in Hl as [Hp Hn].
  apply bool_decide_eq_true in Hp. apply bool_decide_eq_true in Hn.
  by apply partition_sort_join_perm.
Qed.

(** Case analysis over the profiles of the table. *)
Ltac each_language H :=
  apply LANGUAGE_RANGES_lookup in H;
  unfold LANGUAGE_RANGES_items in H;
  repeat (apply elem_of_cons in H as [[= -> ->]|H]);
  [..|by apply elem_of_nil in H].

(** On a language of the table the resolver returns. *)
Lemma get_unicode_ranges_returns set_iter language scripts :
  visits_each_once set_iter →
  LANGUAGE_RANGES !! language = Some scripts →
  ∃ low high, get_unicode_ranges set_iter language = Ok (low, high).
Proof.
  intros Hiter Hl. rewrite (get_unicode_ranges_order _ _ Hiter).
  each_language Hl; (eexists _, _; vm_compute; reflexivity).
Qed.

Lemma same_elements (l1 l2 : list string) :
  Forall (.∈ l2) l1 → Forall (.∈ l1) l2 → ∀ x, x ∈ l1 ↔ x ∈ l2.
Proof. rewrite !Forall_forall. intros H12 H21 x. split; auto. Qed.

Lemma elem_of_profile_tokens scripts tok :
  tok ∈ group_tokens "emoji" ++ (scripts ≫= group_tokens)
  ↔ tok ∈ group_tokens "emoji"
    ∨ ∃ script, script ∈ scripts ∧ tok ∈ group_tokens script.
Proof.
  rewrite elem_of_app, list_elem_of_bind.
  split; (intros [?|(s & ? & ?)]; [by left|right; by exists s]).
Qed.

(** ** C1 *)

(** C1. For every language of the table and however the set of groups is
    visited, [get_unicode_ranges] returns; the tokens of the two returned
    strings are pairwise different, and they are exactly the tokens of
    the emoji group and of the groups the language refers to. *)
Theorem get_unicode_ranges_union set_iter language scripts :
  visits_each_once set_iter →
  LANGUAGE_RANGES !! language = Some scripts →
  ∃ low high,
    get_unicode_ranges set_iter language = Ok (low, high)
    ∧ NoDup (str_split "," low ++ str_split "," high)
    ∧ ∀ tok,
        tok ∈ str_split "," low ++ str_split "," high
        ↔ tok ∈ group_tokens "emoji"
          ∨ ∃ script, script ∈ scripts ∧ tok ∈ group_tokens script.
Proof.
  intros Hiter Hl. rewrite (get_unicode_ranges_order _ _ Hiter).
  each_language Hl;
    (eexists _, _; split; [vm_compute; reflexivity|]; split;
     [by_computation|];
     intros tok; rewrite <-elem_of_profile_tokens;
     apply same_elements; by_computation).
Qed.

Lemma get_unicode_ranges_union_witness :
  visits_each_once elements
  ∧ LANGUAGE_RANGES !! "ja" = Some ["latin"; "japanese"]
  ∧ ∃ low high,
      get_unicode_ranges elements "ja" = Ok (low, high)
      ∧ NoDup (str_split "," low ++ str_split "," high)
      ∧ ∀ tok,
          tok ∈ str_split "," low ++ str_split "," high
          ↔ tok ∈ group_tokens "emoji"
            ∨ ∃ script,
                script ∈ ["latin"; "japanese"] ∧ tok ∈ group_tokens script.
Proof.
  assert (visits_each_once elements) as Hiter by (intros s; reflexivity).
  assert (LANGUAGE_RANGES !! "ja" = Some ["latin"; "japanese"]) as Hl
    by (vm_compute; reflexivity).
  split; [exact Hiter|]. split; [exact Hl|].
  exact (get_unicode_ranges_union elements "ja" _ Hiter Hl).
Defined.

(** ** C2 *)

(** C2. For a language that is not a key of the table,
    [get_unicode_ranges] raises [ValueError] with a message that ends in
    the language given, whatever the order of set iteration; [main]
    then raises the same error to its caller with an empty trace:
    nothing was printed and no subprocess was run.  The error tells the
    condition: it is the only exception [get_unicode_ranges] ever
    raises, and it raises it for no language of the table. *)
Theorem get_unicode_ranges_unsupported
    set_iter SCRIPT_DIR subprocess_run (a : args) :
  LANGUAGE_RANGES !! language a = None →
  get_unicode_ranges set_iter (language a)
  = Raise (ValueError ("Unsupported language: " +:+ language a))
  ∧ main set_iter SCRIPT_DIR subprocess_run a
    = ([], Raise (ValueError ("Unsupported language: " +:+ language a)))
  ∧ (visits_each_once set_iter →
     ∀ language' e,
       get_unicode_ranges set_iter language' = Raise e →
       LANGUAGE_RANGES !! language' = None
       ∧ e = ValueError ("Unsupported language: " +:+ language')).
Proof.
  intros Hl.
  assert (∀ l, LANGUAGE_RANGES !! l = None →
               get_unicode_ranges set_iter l
               = Raise (ValueError ("Unsupported language: " +:+ l)))
    as Hraise.
  { intros l Hnone. unfold get_unicode_ranges. by rewrite Hnone. }
  split; [by apply Hraise|]. split.
  - unfold main. by rewrite (Hraise _ Hl).
  - intros Hiter l e He.
    destruct (LANGUAGE_RANGES !! l) as [scripts|] eqn:Hlookup.
    + destruct (get_unicode_ranges_returns _ _ _ Hiter Hlookup)
        as (low & high & Hok).
      congruence.
    + split; [done|]. rewrite (Hraise _ Hlookup) in He. congruence.
Qed.

Lemma get_unicode_ranges_unsupported_witness :
  LANGUAGE_RANGES !! "xx_unknown" = None
  ∧ get_unicode_ranges elements "xx_unknown"
    = Raise (ValueError "Unsupported language: xx_unknown")
  ∧ main elements "/opt/tool" (λ _, None)
      {| language := "xx_unknown"; output := "font.bin";
         size := 16; bpp := 1 |}
    = ([], Raise (ValueError "Unsupported language: xx_unknown"))
  ∧ (visits_each_once elements →
     ∀ language' e,
       get_unicode_ranges elements language' = Raise e →
       LANGUAGE_RANGES !! language' = None
       ∧ e = ValueError ("Unsupported language: " +:+ language')).
Proof.
  assert (LANGUAGE_RANGES !! "xx_unknown" = None) as Hl
    by (vm_compute; reflexivity).
  split; [exact Hl|].
  exact (get_unicode_ranges_unsupported
           elements "/opt/tool" (λ _, None)
           {| language := "xx_unknown"; output := "font.bin";
              size := 16; bpp := 1 |} Hl).
Defined.

(** ** C3 *)

Lemma low_tokens_parsed (l : list string) :
  Forall (λ tok, parses tok ∧ is_low tok) l →
  ∀ tok, tok ∈ l →
    ∃ start end_, split_range tok = Ok (start, end_) ∧ start < 0x10000.
Proof.
  rewrite Forall_forall. intros Hall tok Htok.
  destruct (Hall _ Htok) as [[[s e] Hp] Hlow].
  exists s, e. split; [done|].
  unfold is_low, start_of in Hlow. by rewrite Hp in Hlow.
Qed.

Lemma high_tokens_parsed (l : list string) :
  Forall (λ tok, parses tok ∧ is_high tok) l →
  ∀ tok, tok ∈ l →
    ∃ start end_, split_range tok = Ok (start, end_) ∧ 0x10000 ≤ start.
Proof.
  rewrite Forall_forall. intros Hall tok Htok.
  destruct (Hall _ Htok) as [[[s e] Hp] Hhigh].
  exists s, e. split; [done|].
  unfold is_high, start_of in Hhigh. by rewrite Hp in Hhigh.
Qed.

(** C3. For every language of the table, every token of the returned
    low string parses to a start below 0x10000 and every token of the
    returned high string parses to a start of at least 0x10000. *)
Theorem get_unicode_ranges_partition set_iter language scripts :
  visits_each_once set_iter →
  LANGUAGE_RANGES !! language = Some scripts →
  ∃ low high,
    get_unicode_ranges set_iter language = Ok (low, high)
    ∧ (∀ tok, tok ∈ str_split "," low →
         ∃ start end_,
           split_range tok = Ok (start, end_) ∧ start < 0x10000)
    ∧ (∀ tok, tok ∈ str_split "," high →
         ∃ start end_,
           split_range tok = Ok (start, end_) ∧ 0x10000 ≤ start).
Proof.
  intros Hiter Hl. rewrite (get_unicode_ranges_order _ _ Hiter).
  each_language Hl;
    (eexists _, _; split; [vm_compute; reflexivity|]; split;
     [apply low_tokens_parsed|apply high_tokens_parsed]; by_computation).
Qed.

Lemma get_unicode_ranges_partition_witness :
  visits_each_once elements
  ∧ LANGUAGE_RANGES !! "ru" = Some ["latin"; "cyrillic"]
  ∧ ∃ low high,
      get_unicode_ranges elements "ru" = Ok (low, high)
      ∧ (∀ tok, tok ∈ str_split "," low →
           ∃ start end_,
             split_range tok = Ok (start, end_) ∧ start < 0x10000)
      ∧ (∀ tok, tok ∈ str_split "," high →
           ∃ start end_,
             split_range tok = Ok (start, end_) ∧ 0x10000 ≤ start).
Proof.
  assert (visits_each_once elements) as Hiter by (intros s; reflexivity).
  assert (LANGUAGE_RANGES !! "ru" = Some ["latin"; "cyrillic"]) as Hl
    by (vm_compute; reflexivity).
  split; [exact Hiter|]. split; [exact Hl|].
  exact (get_unicode_ranges_partition elements "ru" _ Hiter Hl).
Defined.

(** ** C4 *)

Lemma elem_of_table_tokens tok :
  tok ∈ table_tokens →
  ∃ name group,
    UNICODE_RANGES !! name = Some group ∧ tok ∈ str_split "," group.
Proof.
  unfold table_tokens. rewrite list_elem_of_bind.
  intros ([name group] & Htok & Hkv).
  apply elem_of_map_to_list in Hkv. by exists name, group.
Qed.

Lemma table_tokens_subset (l : list string) :
  Forall (.∈ table_tokens) l →
  ∀ tok, tok ∈ l →
    ∃ name group,
      UNICODE_RANGES !! name = Some group ∧ tok ∈ str_split "," group.
Proof.
  rewrite Forall_forall. intros Hall tok Htok.
  by apply elem_of_table_tokens, Hall.
Qed.

Lemma partition_sort_join_no_high order :
  Forall parses (tokens order) →
  Forall is_low (tokens order) →
  ∃ low, partition_sort_join order = Ok (low, "").
Proof.
  intros Hp Hlow. rewrite (partition_sort_join_ok _ Hp).
  assert (filter is_high (tokens order) = []) as ->; [|by eexists].
  induction Hlow as [|tok toks Htok _ IH]; [done|].
  apply Forall_cons in Hp as [_ Hp].
  rewrite filter_cons, (IH Hp).
  rewrite decide_False; [done|]. unfold is_low, is_high in *. lia.
Qed.

Lemma partition_sort_join_no_low order :
  Forall parses (tokens order) →
  Forall is_high (tokens order) →
  ∃ high, partition_sort_join order = Ok ("", high).
Proof.
  intros Hp Hhigh. rewrite (partition_sort_join_ok _ Hp).
  assert (filter is_low (tokens order) = []) as ->; [|by eexists].
  induction Hhigh as [|tok toks Htok _ IH]; [done|].
  apply Forall_cons in Hp as [_ Hp].
  rewrite filter_cons, (IH Hp).
  rewrite decide_False; [done|]. unfold is_low, is_high in *. lia.
Qed.

(** C4. For every language of the table, the tokens of each returned
    string parse and are in ascending order of their start values, and
    each of them is, character for character, a token of a group string
    of [UNICODE_RANGES].  The partitioning, sorting and joining of lines
    88 to 104 gives the empty string for a partition that received no
    token, whatever groups are visited. *)
Theorem get_unicode_ranges_sorted set_iter language scripts :
  visits_each_once set_iter →
  LANGUAGE_RANGES !! language = Some scripts →
  (∃ low high,
     get_unicode_ranges set_iter language = Ok (low, high)
     ∧ Forall parses (str_split "," low ++ str_split "," high)
     ∧ StronglySorted start_le (str_split "," low)
     ∧ StronglySorted start_le (str_split "," high)
     ∧ ∀ tok, tok ∈ str_split "," low ++ str_split "," high →
         ∃ name group,
           UNICODE_RANGES !! name = Some group
           ∧ tok ∈ str_split "," group)
  ∧ ∀ order,
      Forall parses (tokens order) →
      (Forall is_low (tokens order) →
         ∃ low, partition_sort_join order = Ok (low, ""))
      ∧ (Forall is_high (tokens order) →
           ∃ high, partition_sort_join order = Ok ("", high)).
Proof.
  intros Hiter Hl. split.
  - rewrite (get_unicode_ranges_order _ _ Hiter).
    each_language Hl;
      (eexists _, _; split; [vm_compute; reflexivity|];
       repeat split; [by_computation..|];
       apply table_tokens_subset; by_computation).
  - intros order Hp. split.
    + by apply partition_sort_join_no_high.
    + by apply partition_sort_join_no_low.
Qed.

Lemma get_unicode_ranges_sorted_witness :
  visits_each_once elements
  ∧ LANGUAGE_RANGES !! "hi" = Some ["latin"; "devanagari"]
  ∧ (∃ low high,
       get_unicode_ranges elements "hi" = Ok (low, high)
       ∧ Forall parses (str_split "," low ++ str_split "," high)
       ∧ StronglySorted start_le (str_split "," low)
       ∧ StronglySorted start_le (str_split "," high)
       ∧ ∀ tok, tok ∈ str_split "," low ++ str_split "," high →
           ∃ name group,
             UNICODE_RANGES !! name = Some group
             ∧ tok ∈ str_split "," group)
  ∧ ∀ order,
      Forall parses (tokens order) →
      (Forall is_low (tokens order) →
         ∃ low, partition_sort_join order = Ok (low, ""))
      ∧ (Forall is_high (tokens order) →
           ∃ high, partition_sort_join order = Ok ("", high)).
Proof.
  assert (visits_each_once elements) as Hiter by (intros s; reflexivity).
  assert (LANGUAGE_RANGES !! "hi" = Some ["latin"; "devanagari"]) as Hl
    by (vm_compute; reflexivity).
  split; [exact Hiter|]. split; [exact Hl|].
  exact (get_unicode_ranges_sorted elements "hi" _ Hiter Hl).
Defined.

(** ** C5 *)

(** C5. However the set is visited, [get_unicode_ranges("en_US")]
    returns a low string whose tokens are [0x20-0x7E] followed by the
    emoji tokens that start below 0x10000, and a high string whose tokens
    are the emoji tokens that start at or above 0x10000, from
    [0x1F000-0x1F02F] to [0x1FA70-0x1FAFF]. *)
Theorem get_unicode_ranges_en_US set_iter :
  visits_each_once set_iter →
  ∃ low high,
    get_unicode_ranges set_iter "en_US" = Ok (low, high)
    ∧ str_split "," low
      = "0x20-0x7E" :: filter is_low (group_tokens "emoji")
    ∧ str_split "," low
      = [ "0x20-0x7E"; "0x2190-0x21FF"; "0x2300-0x23FF"; "0x2500-0x257F";
          "0x2600-0x26FF" ]
    ∧ str_split "," high = filter is_high (group_tokens "emoji")
    ∧ str_split "," high
      = [ "0x1F000-0x1F02F"; "0x1F0A0-0x1F0FF"; "0x1F100-0x1F1FF";
          "0x1F200-0x1F2FF"; "0x1F300-0x1F9FF"; "0x1FA00-0x1FA6F";
          "0x1FA70-0x1FAFF" ].
Proof.
  intros Hiter. rewrite (get_unicode_ranges_order _ _ Hiter).
  eexists _, _. split; [vm_compute; reflexivity|].
  repeat split; vm_compute; reflexivity.
Qed.

Lemma get_unicode_ranges_en_US_witness :
  visits_each_once elements
  ∧ ∃ low high,
      get_unicode_ranges elements "en_US" = Ok (low, high)
      ∧ str_split "," low
        = "0x20-0x7E" :: filter is_low (group_tokens "emoji")
      ∧ str_split "," low
        = [ "0x20-0x7E"; "0x2190-0x21FF"; "0x2300-0x23FF"; "0x2500-0x257F";
            "0x2600-0x26FF" ]
      ∧ str_split "," high = filter is_high (group_tokens "emoji")
      ∧ str_split "," high
        = [ "0x1F000-0x1F02F"; "0x1F0A0-0x1F0FF"; "0x1F100-0x1F1FF";
            "0x1F200-0x1F2FF"; "0x1F300-0x1F9FF"; "0x1FA00-0x1FA6F";
            "0x1FA70-0x1FAFF" ].
Proof.
  assert (visits_each_once elements) as Hiter by (intros s; reflexivity).
  split; [exact Hiter|].
  exact (get_unicode_ranges_en_US elements Hiter).
Defined.

(** ** C6 *)

(** C6. However the set is visited, the low string of
    [get_unicode_ranges("ja")] has among its tokens the three Japanese
    intervals, the Basic Latin interval and every emoji token that starts
    below 0x10000. *)
Theorem get_unicode_ranges_ja set_iter :
  visits_each_once set_iter →
  ∃ low high,
    get_unicode_ranges set_iter "ja" = Ok (low, high)
    ∧ "0x3040-0x309F" ∈ str_split "," low
    ∧ "0x30A0-0x30FF" ∈ str_split "," low
    ∧ "0x4E00-0x9FFF" ∈ str_split "," low
    ∧ "0x20-0x7E" ∈ str_split "," low
    ∧ ∀ tok, tok ∈ group_tokens "emoji" → is_low tok →
        tok ∈ str_split "," low.
Proof.
  intros Hiter. rewrite (get_unicode_ranges_order _ _ Hiter).
  eexists _, _. split; [vm_compute; reflexivity|].
  repeat split; [by_computation..|].
  intros tok Htok Hlow.
  assert (tok ∈ filter is_low (group_tokens "emoji")) as Hin
    by by apply list_elem_of_filter.
  revert Hin. generalize tok. apply Forall_forall. by_computation.
Qed.

Lemma get_unicode_ranges_ja_witness :
  visits_each_once elements
  ∧ ∃ low high,
      get_unicode_ranges elements "ja" = Ok (low, high)
      ∧ "0x3040-0x309F" ∈ str_split "," low
      ∧ "0x30A0-0x30FF" ∈ str_split "," low
      ∧ "0x4E00-0x9FFF" ∈ str_split "," low
      ∧ "0x20-0x7E" ∈ str_split "," low
      ∧ ∀ tok, tok ∈ group_tokens "emoji" → is_low tok →
          tok ∈ str_split "," low.
Proof.
  assert (visits_each_once elements) as Hiter by (intros s; reflexivity).
  split; [exact Hiter|].
  exact (get_unicode_ranges_ja elements Hiter).
Defined.

(** ** C7 *)

(** C7. For every language of the table, two calls return the same
    strings even when the two calls visit the set of groups in different
    orders; in each returned string no two tokens have the same start
    value. *)
Theorem get_unicode_ranges_deterministic
    set_iter1 set_iter2 language scripts :
  visits_each_once set_iter1 →
  visits_each_once set_iter2 →
  LANGUAGE_RANGES !! language = Some scripts →
  get_unicode_ranges set_iter1 language
  = get_unicode_ranges set_iter2 language
  ∧ ∃ low high,
      get_unicode_ranges set_iter1 language = Ok (low, high)
      ∧ NoDup (start_of <$> str_split "," low)
      ∧ NoDup (start_of <$> str_split "," high).
Proof.
  intros Hiter1 Hiter2 Hl.
  rewrite (get_unicode_ranges_order _ _ Hiter1).
  rewrite (get_unicode_ranges_order _ _ Hiter2).
  split; [done|].
  each_language Hl;
    (eexists _, _; split; [vm_compute; reflexivity|];
     split; by_computation).
Qed.

Lemma get_unicode_ranges_deterministic_witness :
  visits_each_once elements
  ∧ visits_each_once (λ s, reverse (elements s))
  ∧ LANGUAGE_RANGES !! "ja" = Some ["latin"; "japanese"]
  ∧ get_unicode_ranges elements "ja"
    = get_unicode_ranges (λ s, reverse (elements s)) "ja"
  ∧ ∃ low high,
      get_unicode_ranges elements "ja" = Ok (low, high)
      ∧ NoDup (start_of <$> str_split "," low)
      ∧ NoDup (start_of <$> str_split "," high).
Proof.
  assert (visits_each_once elements) as Hiter1 by (intros s; reflexivity).
  assert (visits_each_once (λ s, reverse (elements s))) as Hiter2
    by (intros s; apply reverse_Permutation).
  assert (LANGUAGE_RANGES !! "ja" = Some ["latin"; "japanese"]) as Hl
    by (vm_compute; reflexivity).
  split; [exact Hiter1|]. split; [exact Hiter2|]. split; [exact Hl|].
  exact (get_unicode_ranges_deterministic
           elements (λ s, reverse (elements s)) "ja" _ Hiter1 Hiter2 Hl).
Defined.

(** ** C8 *)

Lemma interval_ok_spec tok :
  interval_ok tok = true → well_formed_interval tok.
Proof.
  unfold interval_ok, well_formed_interval.
  destruct (split_range tok) as [[s e]|]; [|done].
  intros H. exists s, e. split; [done|].
  repeat (apply andb_prop in H as [H ?]).
  apply Bool.eqb_prop in H0.
  destruct (Z.ltb_spec s 0x10000), (Z.ltb_spec e 0x10000);
    try discriminate; lia.
Qed.

(** C8. Every token of every group string of [UNICODE_RANGES], and the
    token of [NERD_FONT_RANGE], is a well formed interval: it parses,
    [0 <= start <= end], [start < 2^32], and start and end are on the
    same side of 0x10000. *)
Theorem static_intervals_well_formed :
  (∀ name group tok,
     UNICODE_RANGES !! name = Some group →
     tok ∈ str_split "," group →
     well_formed_interval tok)
  ∧ (∀ tok, tok ∈ str_split "," NERD_FONT_RANGE → well_formed_interval tok).
Proof.
  split.
  - intros name group tok Hg Htok. apply interval_ok_spec.
    assert (Forall (λ tok, interval_ok tok = true) table_tokens) as Hall
      by by_computation.
    rewrite Forall_forall in Hall. apply Hall.
    unfold table_tokens. apply list_elem_of_bind.
    exists (name, group). split; [done|]. by apply elem_of_map_to_list.
  - intros tok Htok. apply interval_ok_spec.
    assert (Forall (λ tok, interval_ok tok = true)
              (str_split "," NERD_FONT_RANGE)) as Hall by by_computation.
    rewrite Forall_forall in Hall. by apply Hall.
Qed.

Lemma static_intervals_well_formed_witness :
  UNICODE_RANGES !! "japanese"
  = Some "0x3040-0x309F,0x30A0-0x30FF,0x4E00-0x9FFF"
  ∧ "0x4E00-0x9FFF"
    ∈ str_split "," "0x3040-0x309F,0x30A0-0x30FF,0x4E00-0x9FFF"
  ∧ well_formed_interval "0x4E00-0x9FFF"
  ∧ "0xE000-0xF8FF" ∈ str_split "," NERD_FONT_RANGE
  ∧ well_formed_interval "0xE000-0xF8FF".
Proof.
  assert (UNICODE_RANGES !! "japanese"
          = Some "0x3040-0x309F,0x30A0-0x30FF,0x4E00-0x9FFF") as Hg
    by (vm_compute; reflexivity).
  assert ("0x4E00-0x9FFF"
          ∈ str_split "," "0x3040-0x309F,0x30A0-0x30FF,0x4E00-0x9FFF")
    as Htok by (vm_compute; do 2 right; left).
  assert ("0xE000-0xF8FF" ∈ str_split "," NERD_FONT_RANGE) as Hnerd
    by (vm_compute; left).
  split; [exact Hg|]. split; [exact Htok|].
  split; [exact (proj1 static_intervals_well_formed _ _ _ Hg Htok)|].
  split; [exact Hnerd|].
  exact (proj2 static_intervals_well_formed _ Hnerd).
Defined.

(** ** C9 *)

Lemma string_app_inj_l (s a b : string) : s +:+ a = s +:+ b → a = b.
Proof. induction s as [|c s IH]; simpl; [done|]. intros [= ?]. auto. Qed.

Lemma UNIFONT_JP_PATH_ne SCRIPT_DIR :
  UNIFONT_JP_PATH SCRIPT_DIR ≠ UNIFONT_PATH SCRIPT_DIR.
Proof.
  unfold UNIFONT_JP_PATH, UNIFONT_PATH, path_join.
  destruct (negb (truthy SCRIPT_DIR) || ends_with_slash SCRIPT_DIR);
    intros H; repeat apply string_app_inj_l in H; discriminate.
Qed.

(** When the resolver returns, [main] announces the command, runs it
    once and prints at most one more line. *)
Lemma main_trace set_iter SCRIPT_DIR subprocess_run (a : args) low high :
  get_unicode_ranges set_iter (language a) = Ok (low, high) →
  ∃ rest,
    (main set_iter SCRIPT_DIR subprocess_run a).1
    = Print "Running command:"
      :: Print (str_join " " (build_cmd SCRIPT_DIR a low high))
      :: SubprocessRun (build_cmd SCRIPT_DIR a low high)
      :: rest
    ∧ Forall is_print rest.
Proof.
  intros Hget. unfold main. rewrite Hget.
  cbn [io_lift io_bind try_except print run io_ret app fst].
  generalize (build_cmd SCRIPT_DIR a low high). intros cmd.
  destruct (subprocess_run cmd) as [[]|];
    cbn [io_bind try_except print io_ret app fst];
    eexists; (split; [reflexivity|]); repeat constructor.
Qed.

(** C9. The argument list of lines 117 to 148 is [lv_font_conv], then
    [--font base --autohint-off -r low], then
    [--font upper --autohint-off -r high] exactly when [high] is not
    empty, then [--font nerd -r 0xE000-0xF8FF], then
    [--size n --format bin --bpp n --no-compress -o output]; the base
    font is the JP font exactly when the language is [ja], and the plain
    font otherwise.  For a language of the table, [main] runs exactly
    this list, built from the two strings of the resolver, once. *)
Theorem main_command set_iter SCRIPT_DIR subprocess_run (a : args) scripts :
  visits_each_once set_iter →
  LANGUAGE_RANGES !! language a = Some scripts →
  (∀ low high, ∃ base_font,
     (base_font = UNIFONT_JP_PATH SCRIPT_DIR ↔ language a = "ja")
     ∧ (base_font = UNIFONT_PATH SCRIPT_DIR ↔ language a ≠ "ja")
     ∧ build_cmd SCRIPT_DIR a low high
       = [ "lv_font_conv"; "--font"; base_font; "--autohint-off"; "-r";
           low ]
         ++ (if decide (high = "") then []
             else [ "--font"; UNIFONT_UPPER_PATH SCRIPT_DIR;
                    "--autohint-off"; "-r"; high ])
         ++ [ "--font"; NERD_FONT_PATH SCRIPT_DIR; "-r"; "0xE000-0xF8FF" ]
         ++ [ "--size"; str_of_int (size a); "--format"; "bin"; "--bpp";
              str_of_int (bpp a); "--no-compress"; "-o"; output a ])
  ∧ ∃ low high rest,
      get_unicode_ranges set_iter (language a) = Ok (low, high)
      ∧ (main set_iter SCRIPT_DIR subprocess_run a).1
        = Print "Running command:"
          :: Print (str_join " " (build_cmd SCRIPT_DIR a low high))
          :: SubprocessRun (build_cmd SCRIPT_DIR a low high)
          :: rest
      ∧ Forall is_print rest.
Proof.
  intros Hiter Hl. split.
  - intros low high. unfold build_cmd.
    pose proof (UNIFONT_JP_PATH_ne SCRIPT_DIR) as Hne.
    destruct (String.eqb_spec (language a) "ja") as [Hja|Hja].
    + exists (UNIFONT_JP_PATH SCRIPT_DIR).
      split; [done|]. split; [done|].
      destruct high; [by rewrite decide_True|by rewrite decide_False].
    + exists (UNIFONT_PATH SCRIPT_DIR).
      split; [split; [by intros Heq; destruct Hne|done]|].
      split; [done|].
      destruct high; [by rewrite decide_True|by rewrite decide_False].
  - destruct (get_unicode_ranges_returns _ _ _ Hiter Hl)
      as (low & high & Hget).
    destruct (main_trace set_iter SCRIPT_DIR subprocess_run a _ _ Hget)
      as (rest & Htrace & Hrest).
    by exists low, high, rest.
Qed.

Lemma main_command_witness :
  visits_each_once elements
  ∧ LANGUAGE_RANGES !! "ja" = Some ["latin"; "japanese"]
  ∧ (∀ low high, ∃ base_font,
       (base_font = UNIFONT_JP_PATH "/opt/tool" ↔ "ja" = "ja")
       ∧ (base_font = UNIFONT_PATH "/opt/tool" ↔ "ja" ≠ "ja")
       ∧ build_cmd "/opt/tool"
           {| language := "ja"; output := "font.bin"; size := 16;
              bpp := 1 |} low high
         = [ "lv_font_conv"; "--font"; base_font; "--autohint-off"; "-r";
             low ]
           ++ (if decide (high = "") then []
               else [ "--font"; UNIFONT_UPPER_PATH "/opt/tool";
                      "--autohint-off"; "-r"; high ])
           ++ [ "--font"; NERD_FONT_PATH "/opt/tool"; "-r";
                "0xE000-0xF8FF" ]
           ++ [ "--size"; str_of_int 16; "--format"; "bin"; "--bpp";
                str_of_int 1; "--no-compress"; "-o"; "font.bin" ])
  ∧ ∃ low high rest,
      get_unicode_ranges elements "ja" = Ok (low, high)
      ∧ (main elements "/opt/tool" (λ _, None)
           {| language := "ja"; output := "font.bin"; size := 16;
              bpp := 1 |}).1
        = Print "Running command:"
          :: Print (str_join " "
                      (build_cmd "/opt/tool"
                         {| language := "ja"; output := "font.bin";
                            size := 16; bpp := 1 |} low high))
          :: SubprocessRun
               (build_cmd "/opt/tool"
                  {| language := "ja"; output := "font.bin"; size := 16;
                     bpp := 1 |} low high)
          :: rest
      ∧ Forall is_print rest.
Proof.
  assert (visits_each_once elements) as Hiter by (intros s; reflexivity).
  assert (LANGUAGE_RANGES !! "ja" = Some ["latin"; "japanese"]) as Hl
    by (vm_compute; reflexivity).
  split; [exact Hiter|]. split; [exact Hl|].
  exact (main_command elements "/opt/tool" (λ _, None)
           {| language := "ja"; output := "font.bin"; size := 16;
              bpp := 1 |} _ Hiter Hl).
Defined.

(** ** C10 *)

(** C10. For every language of the table the returned high string is
    the same: the seven emoji intervals that start at or above 0x10000,
    in ascending order.  The returned low string is never empty, every
    profile lists [latin], and no token of a group other than [emoji]
    starts at or above 0x10000. *)
Theorem get_unicode_ranges_high_fixed set_iter language scripts :
  visits_each_once set_iter →
  LANGUAGE_RANGES !! language = Some scripts →
  (∃ low,
     get_unicode_ranges set_iter language = Ok (low, HIGH_EMOJI)
     ∧ low ≠ "")
  ∧ "latin" ∈ scripts
  ∧ ∀ name group tok,
      name ≠ "emoji" →
      UNICODE_RANGES !! name = Some group →
      tok ∈ str_split "," group →
      ∃ start end_,
        split_range tok = Ok (start, end_) ∧ start < 0x10000.
Proof.
  intros Hiter Hl. rewrite (get_unicode_ranges_order _ _ Hiter).
  split; [|split].
  - each_language Hl;
      (eexists; split; [vm_compute; reflexivity|discriminate]).
  - each_language Hl; by_computation.
  - intros name group tok Hname Hg Htok.
    assert (Forall (λ kv : string * string,
                      kv.1 = "emoji"
                      ∨ Forall (λ tok, parses tok ∧ is_low tok)
                          (str_split "," kv.2))
              (map_to_list UNICODE_RANGES)) as Hall by by_computation.
    rewrite Forall_forall in Hall.
    apply elem_of_map_to_list in Hg.
    destruct (Hall _ Hg) as [?|Hlow]; [done|].
    by eapply low_tokens_parsed.
Qed.

Lemma get_unicode_ranges_high_fixed_witness :
  visits_each_once elements
  ∧ LANGUAGE_RANGES !! "ko" = Some ["latin"; "korean"]
  ∧ (∃ low,
       get_unicode_ranges elements "ko" = Ok (low, HIGH_EMOJI)
       ∧ low ≠ "")
  ∧ "latin" ∈ ["latin"; "korean"]
  ∧ ∀ name group tok,
      name ≠ "emoji" →
      UNICODE_RANGES !! name = Some group →
      tok ∈ str_split "," group →
      ∃ start end_,
        split_range tok = Ok (start, end_) ∧ start < 0x10000.
Proof.
  assert (visits_each_once elements) as Hiter by (intros s; reflexivity).
  assert (LANGUAGE_RANGES !! "ko" = Some ["latin"; "korean"]) as Hl
    by (vm_compute; reflexivity).
  split; [exact Hiter|]. split; [exact Hl|].
  exact (get_unicode_ranges_high_fixed elements "ko" _ Hiter Hl).
Defined.


(** * Further properties of the code *)

(** ** [str.split] and [str.join] *)

Lemma str_split_cons sep s : ∃ w ws, str_split sep s = w :: ws.
Proof.
  induction s as [|c s (w & ws & IH)]; simpl; [by eexists _, _|].
  destruct (Ascii.eqb c sep); [by eexists _, _|].
  rewrite IH. by eexists _, _.
Qed.

Lemma str_join_cons_cons sep x y l :
  str_join sep (x :: y :: l) = x +:+ sep +:+ str_join sep (y :: l).
Proof. reflexivity. Qed.

Lemma str_join_split sep s :
  str_join (String sep "") (str_split sep s) = s.
Proof.
  induction s as [|c s IH]; [done|]. cbn [str_split].
  destruct (str_split_cons sep s) as (w & ws & Hs). rewrite Hs in IH |- *.
  destruct (Ascii.eqb_spec c sep) as [->|_].
  - rewrite str_join_cons_cons. simpl. by rewrite <-IH.
  - destruct ws as [|w' ws].
    + simpl in *. by rewrite IH.
    + rewrite str_join_cons_cons in *. simpl. by rewrite <-IH.
Qed.

Lemma str_split_no_sep sep s :
  Forall (λ part, has_char sep part = false) (str_split sep s).
Proof.
  induction s as [|c s IH]; cbn [str_split]; [by repeat constructor|].
  destruct (Ascii.eqb_spec c sep) as [->|Hne]; [by constructor|].
  destruct (str_split sep s) as [|w ws].
  { constructor; [|constructor]. simpl.
    by destruct (Ascii.eqb_spec c sep). }
  apply Forall_cons in IH as [Hw Hws]. constructor; [|done].
  simpl. rewrite Hw.
  by destruct (Ascii.eqb_spec c sep).
Qed.

Lemma str_split_whole sep a :
  has_char sep a = false → str_split sep a = [a].
Proof.
  induction a as [|c a IH]; [done|]. simpl.
  destruct (Ascii.eqb c sep); [done|]. simpl. intros Ha.
  by rewrite (IH Ha).
Qed.

Lemma str_split_app sep a rest :
  has_char sep a = false →
  str_split sep (a +:+ String sep rest) = a :: str_split sep rest.
Proof.
  induction a as [|c a IH]; simpl.
  - intros _. by rewrite Ascii.eqb_refl.
  - destruct (Ascii.eqb c sep); [done|]. simpl. intros Ha.
    by rewrite (IH Ha).
Qed.

Lemma str_split_join sep x l :
  Forall (λ part, has_char sep part = false) (x :: l) →
  str_split sep (str_join (String sep "") (x :: l)) = x :: l.
Proof.
  revert x. induction l as [|y l IH]; intros x Hall.
  - apply Forall_cons in Hall as [Hx _]. by apply str_split_whole.
  - apply Forall_cons in Hall as [Hx Hl].
    rewrite str_join_cons_cons.
    change (x +:+ String sep "" +:+ str_join (String sep "") (y :: l))
      with (x +:+ String sep (str_join (String sep "") (y :: l))).
    rewrite (str_split_app _ _ _ Hx). by rewrite (IH _ Hl).
Qed.

(** ** [split_range] *)

Lemma has_char_skip_space c s :
  has_char c s = false → has_char c (skip_space s) = false.
Proof.
  induction s as [|c' s IH]; [done|]. cbn [skip_space].
  destruct (is_space c'); [|done]. simpl.
  intros [_ Hs]%orb_false_elim. auto.
Qed.

Lemma read_sign_positive s sign rest :
  has_char "-" s = false → read_sign s = (sign, rest) → sign = 1.
Proof.
  destruct s as [|c s]; simpl; [by intros _ [= <- _]|].
  intros [Hc _]%orb_false_elim.
  unfold read_sign. intros Hr.
  repeat case_match; simplify_eq; try done.
Qed.

Lemma hex_digit_nonneg c d : hex_digit c = Some d → 0 ≤ d < 16.
Proof.
  unfold hex_digit. intros H.
  repeat case_match; simplify_eq; lia.
Qed.

Lemma scan_digits16_nonneg s prev_us acc n v n' rest :
  0 ≤ acc →
  scan_digits16 s prev_us acc n = Some (v, n', rest) → 0 ≤ v.
Proof.
  revert prev_us acc n.
  induction s as [|c s IH]; intros prev_us acc n Hacc; simpl.
  - destruct prev_us; [done|]. by intros [= <- _ _].
  - destruct (Ascii.eqb c "_").
    + destruct prev_us; [done|]. by apply IH.
    + destruct (hex_digit c) as [d|] eqn:Hd.
      * apply hex_digit_nonneg in Hd. apply IH. lia.
      * destruct prev_us; [done|]. by intros [= <- _ _].
Qed.

Lemma int16_ok s v :
  int16 s = Ok v →
  ∃ sign s1 v0 n rest,
    read_sign (skip_space s) = (sign, s1)
    ∧ scan_digits16 (skip_prefix16 s1) false 0 0 = Some (v0, n, rest)
    ∧ v = sign * v0.
Proof.
  unfold int16. destruct (read_sign (skip_space s)) as [sign s1].
  intros H. exists sign, s1.
  destruct (scan_digits16 (skip_prefix16 s1) false 0 0)
    as [[[v0 n] rest]|] eqn:Hscan.
  - exists v0, n, rest. split; [done|]. split; [done|].
    repeat case_match; simplify_eq; done.
  - repeat case_match; simplify_eq.
Qed.

Lemma int16_nonneg s v :
  has_char "-" s = false → int16 s = Ok v → 0 ≤ v.
Proof.
  intros Hs (sign & s1 & v0 & n & rest & Hsign & Hscan & ->)%int16_ok.
  apply read_sign_positive in Hsign; [|by apply has_char_skip_space].
  apply scan_digits16_nonneg in Hscan; [|done]. lia.
Qed.


Lemma split_range_inv tok start end_ :
  split_range tok = Ok (start, end_) →
  ∃ a b,
    tok = a +:+ "-" +:+ b
    ∧ has_char "-" a = false ∧ has_char "-" b = false
    ∧ int16 a = Ok start ∧ int16 b = Ok end_.
Proof.
  unfold split_range.
  pose proof (str_join_split "-" tok) as Hjoin.
  pose proof (str_split_no_sep "-" tok) as Hsep.
  destruct (str_split "-" tok) as [|a [|b [|? ?]]]; try done.
  apply Forall_cons in Hsep as [Ha Hsep].
  apply Forall_cons in Hsep as [Hb _].
  destruct (int16 a) as [s|] eqn:Hia; [|done].
  destruct (int16 b) as [e|] eqn:Hib; [|done].
  intros [= <- <-]. by exists a, b.
Qed.



(** X2. A pair returned by [split_range] has no negative component: a
    minus sign in the token is read as a separator, never as a sign. *)
Theorem split_range_nonneg tok start end_ :
  split_range tok = Ok (start, end_) → 0 ≤ start ∧ 0 ≤ end_.
Proof.
  intros (a & b & _ & Ha & Hb & Hia & Hib)%split_range_inv.
  split; [exact (int16_nonneg _ _ Ha Hia)|exact (int16_nonneg _ _ Hb Hib)].
Qed.

Lemma split_range_nonneg_witness :
  split_range "0x20-0x7E" = Ok (32, 126) ∧ 0 ≤ 32 ∧ 0 ≤ 126.
Proof.
  assert (split_range "0x20-0x7E" = Ok (32, 126)) as Hs by reflexivity.
  split; [exact Hs|].
  exact (split_range_nonneg "0x20-0x7E" 32 126 Hs).
Defined.



(** ** Lines 88 to 104 on arbitrary groups *)

Lemma for_each_place_parses parts st st' :
  for_each parts place st = Ok st' → Forall parses parts.
Proof.
  revert st. induction parts as [|part parts IH]; intros st; [done|].
  cbn [for_each]. destruct st as [low high]. unfold place at 1.
  destruct (split_range part) as [[s e]|] eqn:Hp; [|done]. cbn [bind].
  destruct (0x10000 <=? s); cbn [bind]; intros Hrest;
    (constructor; [by exists (s, e)|by eapply IH]).
Qed.


Lemma partition_sort_join_parses order r :
  partition_sort_join order = Ok r → Forall parses (tokens order).
Proof.
  unfold partition_sort_join. rewrite for_each_nested. fold (tokens order).
  destruct (for_each (tokens order) place ([], [])) as [st|] eqn:Hloop;
    [|done].
  intros _. by eapply for_each_place_parses.
Qed.

Lemma filter_low_high parts :
  filter is_low parts ++ filter is_high parts ≡ₚ parts.
Proof.
  induction parts as [|part parts IH]; [done|]. rewrite !filter_cons.
  destruct (decide (is_low part)) as [Hl|Hl],
    (decide (is_high part)) as [Hh|Hh];
    unfold is_low, is_high in Hl, Hh; try lia.
  - simpl. by rewrite IH.
  - rewrite <-Permutation_middle. by rewrite IH.
Qed.

Lemma tokens_no_comma order :
  Forall (λ part, has_char "," part = false) (tokens order).
Proof.
  unfold tokens. apply Forall_forall. intros part Hin.
  apply list_elem_of_bind in Hin as (group & Hpart & _).
  pose proof (str_split_no_sep "," group) as Hall.
  rewrite Forall_forall in Hall. auto.
Qed.

Lemma sorted_by_start_nil parts : sorted_by_start parts = [] → parts = [].
Proof.
  intros Hnil. apply Permutation_nil.
  by rewrite <-(sorted_by_start_Permutation parts), Hnil.
Qed.

Lemma empty_not_parses : ¬ parses "".
Proof. intros [se Hse]. vm_compute in Hse. discriminate. Qed.

Lemma str_join_empty sep l :
  Forall parses l → str_join sep l = "" → l = [].
Proof.
  destruct l as [|x [|y l]]; [done|..]; intros Hall.
  - simpl. intros ->. apply Forall_cons in Hall as [Hx _].
    by destruct empty_not_parses.
  - rewrite str_join_cons_cons. apply Forall_cons in Hall as [Hx _].
    destruct x as [|c x]; [by destruct empty_not_parses|done].
Qed.





(** X6. Whatever groups are visited, when lines 88 to 104 return, the two
    strings are the joins of two token lists that together are a
    rearrangement of the visited tokens (none lost, none added, none
    repeated more often); the first holds the tokens that start below
    0x10000, the second the others, and each is in ascending order of
    start. *)
Theorem partition_sort_join_partitions order low high :
  partition_sort_join order = Ok (low, high) →
  ∃ lows highs,
    low = str_join "," lows
    ∧ high = str_join "," highs
    ∧ lows ++ highs ≡ₚ tokens order
    ∧ Forall (λ tok, parses tok ∧ is_low tok) lows
    ∧ Forall (λ tok, parses tok ∧ is_high tok) highs
    ∧ StronglySorted start_le lows
    ∧ StronglySorted start_le highs.
Proof.
  intros Hr. pose proof (partition_sort_join_parses _ _ Hr) as Hall.
  rewrite (partition_sort_join_ok _ Hall) in Hr. injection Hr as <- <-.
  exists (sorted_by_start (filter is_low (tokens order))),
    (sorted_by_start (filter is_high (tokens order))).
  split; [done|]. split; [done|].
  split; [by rewrite !sorted_by_start_Permutation, filter_low_high|].
  split; [|split; [|split; apply sorted_by_start_sorted]].
  - rewrite sorted_by_start_Permutation. apply Forall_forall.
    intros tok [Hlow Hin]%list_elem_of_filter. split; [|done].
    rewrite Forall_forall in Hall. auto.
  - rewrite sorted_by_start_Permutation. apply Forall_forall.
    intros tok [Hhigh Hin]%list_elem_of_filter. split; [|done].
    rewrite Forall_forall in Hall. auto.
Qed.

Lemma partition_sort_join_partitions_witness :
  partition_sort_join ["0x1F000-0x1F02F,0xA0-0xFF"; "0x20-0x7E"]
  = Ok ("0x20-0x7E,0xA0-0xFF", "0x1F000-0x1F02F")
  ∧ ∃ lows highs,
      "0x20-0x7E,0xA0-0xFF" = str_join "," lows
      ∧ "0x1F000-0x1F02F" = str_join "," highs
      ∧ lows ++ highs
        ≡ₚ tokens ["0x1F000-0x1F02F,0xA0-0xFF"; "0x20-0x7E"]
      ∧ Forall (λ tok, parses tok ∧ is_low tok) lows
      ∧ Forall (λ tok, parses tok ∧ is_high tok) highs
      ∧ StronglySorted start_le lows
      ∧ StronglySorted start_le highs.
Proof.
  assert (partition_sort_join ["0x1F000-0x1F02F,0xA0-0xFF"; "0x20-0x7E"]
          = Ok ("0x20-0x7E,0xA0-0xFF", "0x1F000-0x1F02F")) as Hr
    by (vm_compute; reflexivity).
  split; [exact Hr|].
  exact (partition_sort_join_partitions _ _ _ Hr).
Defined.

(** X7. Splitting a returned string on commas gives back the tokens of
    its partition, in ascending order of start, when the partition has a
    token.  A partition without tokens gives the empty string, which
    [split] turns into one empty token, not into none. *)
Theorem partition_sort_join_split order low high :
  partition_sort_join order = Ok (low, high) →
  (filter is_low (tokens order) ≠ [] →
     str_split "," low ≡ₚ filter is_low (tokens order)
     ∧ StronglySorted start_le (str_split "," low))
  ∧ (filter is_high (tokens order) ≠ [] →
       str_split "," high ≡ₚ filter is_high (tokens order)
       ∧ StronglySorted start_le (str_split "," high))
  ∧ (filter is_low (tokens order) = [] →
       low = "" ∧ str_split "," low = [""])
  ∧ (filter is_high (tokens order) = [] →
       high = "" ∧ str_split "," high = [""]).
Proof.
  intros Hr. pose proof (partition_sort_join_parses _ _ Hr) as Hall.
  rewrite (partition_sort_join_ok _ Hall) in Hr. injection Hr as <- <-.
  assert (∀ (P : string → Prop) `{!∀ x, Decision (P x)},
            filter P (tokens order) ≠ [] →
            str_split ","
              (str_join "," (sorted_by_start (filter P (tokens order))))
            = sorted_by_start (filter P (tokens order))) as Hsplit.
  { intros P ? Hne.
    destruct (sorted_by_start (filter P (tokens order)))
      as [|x l] eqn:Hsorted.
    { by apply sorted_by_start_nil in Hsorted. }
    apply str_split_join. rewrite <-Hsorted.
    rewrite sorted_by_start_Permutation.
    apply Forall_filter_keep, tokens_no_comma. }
  split; [|split; [|split]].
  - intros Hne. rewrite (Hsplit _ _ Hne).
    split; [apply sorted_by_start_Permutation|apply sorted_by_start_sorted].
  - intros Hne. rewrite (Hsplit _ _ Hne).
    split; [apply sorted_by_start_Permutation|apply sorted_by_start_sorted].
  - by intros ->.
  - by intros ->.
Qed.

Lemma partition_sort_join_split_witness :
  partition_sort_join ["0xA0-0xFF,0x20-0x7E"]
  = Ok ("0x20-0x7E,0xA0-0xFF", "")
  ∧ (filter is_low (tokens ["0xA0-0xFF,0x20-0x7E"]) ≠ [] →
       str_split "," "0x20-0x7E,0xA0-0xFF"
       ≡ₚ filter is_low (tokens ["0xA0-0xFF,0x20-0x7E"])
       ∧ StronglySorted start_le (str_split "," "0x20-0x7E,0xA0-0xFF"))
  ∧ (filter is_high (tokens ["0xA0-0xFF,0x20-0x7E"]) ≠ [] →
       str_split "," "" ≡ₚ filter is_high (tokens ["0xA0-0xFF,0x20-0x7E"])
       ∧ StronglySorted start_le (str_split "," ""))
  ∧ (filter is_low (tokens ["0xA0-0xFF,0x20-0x7E"]) = [] →
       "0x20-0x7E,0xA0-0xFF" = ""
       ∧ str_split "," "0x20-0x7E,0xA0-0xFF" = [""])
  ∧ (filter is_high (tokens ["0xA0-0xFF,0x20-0x7E"]) = [] →
       "" = "" ∧ str_split "," "" = [""]).
Proof.
  assert (partition_sort_join ["0xA0-0xFF,0x20-0x7E"]
          = Ok ("0x20-0x7E,0xA0-0xFF", "")) as Hr
    by (vm_compute; reflexivity).
  split; [exact Hr|].
  exact (partition_sort_join_split _ _ _ Hr).
Defined.

(** X8. Visiting the same groups in another order gives the same two
    strings, provided no two tokens start at the same value.  The
    proviso is needed: with two tokens of one start value the order of
    the visit shows in the result. *)
Theorem partition_sort_join_order_free order1 order2 r :
  (order1 ≡ₚ order2 →
   NoDup (start_of <$> tokens order2) →
   partition_sort_join order2 = Ok r →
   partition_sort_join order1 = Ok r)
  ∧ ∃ o1 o2 r1 r2,
      o1 ≡ₚ o2
      ∧ partition_sort_join o1 = Ok r1
      ∧ partition_sort_join o2 = Ok r2
      ∧ r1 ≠ r2.
Proof.
  split.
  - intros Hperm Hnd Hr. rewrite <-Hr.
    apply partition_sort_join_perm; [done| |done].
    by eapply partition_sort_join_parses.
  - exists ["0x20-0x25"; "0x20-0x21"], ["0x20-0x21"; "0x20-0x25"].
    eexists _, _. split; [apply Permutation_swap|].
    split; [vm_compute; reflexivity|].
    split; [vm_compute; reflexivity|]. discriminate.
Qed.

Lemma partition_sort_join_order_free_witness :
  ["0x20-0x7E"; "0x1F000-0x1F02F,0xA0-0xFF"]
  ≡ₚ ["0x1F000-0x1F02F,0xA0-0xFF"; "0x20-0x7E"]
  ∧ NoDup (start_of <$> tokens ["0x1F000-0x1F02F,0xA0-0xFF"; "0x20-0x7E"])
  ∧ partition_sort_join ["0x1F000-0x1F02F,0xA0-0xFF"; "0x20-0x7E"]
    = Ok ("0x20-0x7E,0xA0-0xFF", "0x1F000-0x1F02F")
  ∧ partition_sort_join ["0x20-0x7E"; "0x1F000-0x1F02F,0xA0-0xFF"]
    = Ok ("0x20-0x7E,0xA0-0xFF", "0x1F000-0x1F02F").
Proof.
  assert (["0x20-0x7E"; "0x1F000-0x1F02F,0xA0-0xFF"]
          ≡ₚ ["0x1F000-0x1F02F,0xA0-0xFF"; "0x20-0x7E"]) as Hperm
    by apply Permutation_swap.
  assert (NoDup (start_of
                   <$> tokens ["0x1F000-0x1F02F,0xA0-0xFF"; "0x20-0x7E"]))
    as Hnd by (apply (bool_decide_unpack _); vm_compute; exact I).
  assert (partition_sort_join ["0x1F000-0x1F02F,0xA0-0xFF"; "0x20-0x7E"]
          = Ok ("0x20-0x7E,0xA0-0xFF", "0x1F000-0x1F02F")) as Hr
    by (vm_compute; reflexivity).
  split; [exact Hperm|]. split; [exact Hnd|]. split; [exact Hr|].
  exact (proj1 (partition_sort_join_order_free _ _ _) Hperm Hnd Hr).
Defined.

(** ** Lines 81 to 85 on arbitrary profiles *)

Lemma for_each_add_group scripts (ranges ranges' : gset string) :
  for_each scripts
    (λ script ranges,
       group ←r getitem UNICODE_RANGES script;
       Ok (ranges ∪ {[ group ]}))
    ranges = Ok ranges' →
  ∀ g, g ∈ ranges' ↔
       g ∈ ranges
       ∨ ∃ script, script ∈ scripts ∧ UNICODE_RANGES !! script = Some g.
Proof.
  revert ranges. induction scripts as [|script scripts IH]; intros ranges.
  - intros [= <-] g. split; [by left|]. intros [?|(s & Hs & _)]; [done|].
    by apply elem_of_nil in Hs.
  - cbn [for_each]. unfold getitem at 1.
    destruct (UNICODE_RANGES !! script) as [group|] eqn:Hg; [|done].
    cbn [bind]. intros Hrest g. rewrite (IH _ Hrest g).
    rewrite elem_of_union, elem_of_singleton. split.
    + intros [[?| ->]|(s & Hs & Hsg)].
      * by left.
      * right. exists script. split; [by left|done].
      * right. exists s. split; [by right|done].
    + intros [?|(s & Hs & Hsg)]; [by left; left|].
      apply elem_of_cons in Hs as [->|Hs].
      * left. right. congruence.
      * right. by exists s.
Qed.

Lemma for_each_add_group_raise pre bad post (ranges : gset string) :
  Forall (λ script, is_Some (UNICODE_RANGES !! script)) pre →
  UNICODE_RANGES !! bad = None →
  for_each (pre ++ bad :: post)
    (λ script ranges,
       group ←r getitem UNICODE_RANGES script;
       Ok (ranges ∪ {[ group ]}))
    ranges = Raise (KeyError bad).
Proof.
  intros Hpre Hbad. revert ranges.
  induction Hpre as [|script pre [g Hg] _ IH]; intros ranges; simpl.
  - unfold getitem. by rewrite Hbad.
  - unfold getitem at 1. rewrite Hg. cbn [bind]. apply IH.
Qed.

Lemma for_each_add_group_ok scripts (ranges : gset string) :
  Forall (λ script, is_Some (UNICODE_RANGES !! script)) scripts →
  ∃ ranges',
    for_each scripts
      (λ script ranges,
         group ←r getitem UNICODE_RANGES script;
         Ok (ranges ∪ {[ group ]}))
      ranges = Ok ranges'.
Proof.
  intros Hall. revert ranges.
  induction Hall as [|script scripts [g Hg] _ IH]; intros ranges; simpl.
  - by eexists.
  - unfold getitem at 1. rewrite Hg. cbn [bind]. apply IH.
Qed.

Lemma UNICODE_RANGES_emoji :
  ∃ emoji, UNICODE_RANGES !! "emoji" = Some emoji.
Proof. eexists. vm_compute. reflexivity. Qed.

Lemma selected_ranges_returns scripts :
  Forall (λ script, is_Some (UNICODE_RANGES !! script)) scripts →
  ∃ ranges, selected_ranges scripts = Ok ranges.
Proof.
  intros Hall. unfold selected_ranges.
  destruct UNICODE_RANGES_emoji as [emoji Hemoji].
  unfold getitem at 1. rewrite Hemoji. cbn [bind].
  by apply for_each_add_group_ok.
Qed.

(** X9. When lines 81 to 85 return, the set holds exactly the emoji group
    string and the group strings of the scripts listed. *)
Theorem selected_ranges_members scripts ranges :
  selected_ranges scripts = Ok ranges →
  ∀ g, g ∈ ranges ↔
       UNICODE_RANGES !! "emoji" = Some g
       ∨ ∃ script, script ∈ scripts ∧ UNICODE_RANGES !! script = Some g.
Proof.
  unfold selected_ranges. destruct UNICODE_RANGES_emoji as [emoji Hemoji].
  unfold getitem at 1. rewrite Hemoji. cbn [bind]. intros Hloop g.
  rewrite (for_each_add_group _ _ _ Hloop g).
  assert (g ∈ (∅ ∪ {[emoji]} : gset string) ↔ Some emoji = Some g) as ->.
  { split.
    - intros [Hg|Hg]%elem_of_union; [by apply elem_of_empty in Hg|].
      apply elem_of_singleton in Hg. by subst.
    - intros [= ->]. apply elem_of_union. right.
      by apply elem_of_singleton. }
  done.
Qed.

Lemma selected_ranges_members_witness :
  ∃ ranges,
    selected_ranges ["latin"; "greek"; "latin"] = Ok ranges
    ∧ ∀ g,
        g ∈ ranges
        ↔ UNICODE_RANGES !! "emoji" = Some g
          ∨ ∃ script,
              script ∈ ["latin"; "greek"; "latin"]
              ∧ UNICODE_RANGES !! script = Some g.
Proof.
  destruct (selected_ranges_returns ["latin"; "greek"; "latin"])
    as [ranges Hs].
  { apply (bool_decide_unpack _). vm_compute. exact I. }
  exists ranges. split; [exact Hs|].
  exact (selected_ranges_members _ _ Hs).
Defined.

(** X10. A script that is not a key of [UNICODE_RANGES] makes lines 81 to
    85 raise [KeyError] for the first such script of the profile. *)
Theorem selected_ranges_missing pre bad post :
  Forall (λ script, is_Some (UNICODE_RANGES !! script)) pre →
  UNICODE_RANGES !! bad = None →
  selected_ranges (pre ++ bad :: post) = Raise (KeyError bad).
Proof.
  intros Hpre Hbad. unfold selected_ranges.
  destruct UNICODE_RANGES_emoji as [emoji Hemoji].
  unfold getitem at 1. rewrite Hemoji. cbn [bind].
  by apply for_each_add_group_raise.
Qed.

Lemma selected_ranges_missing_witness :
  Forall (λ script, is_Some (UNICODE_RANGES !! script)) ["latin"]
  ∧ UNICODE_RANGES !! "thai" = None
  ∧ selected_ranges (["latin"] ++ "thai" :: ["arabic"])
    = Raise (KeyError "thai").
Proof.
  assert (Forall (λ script, is_Some (UNICODE_RANGES !! script)) ["latin"])
    as Hpre by (apply (bool_decide_unpack _); vm_compute; exact I).
  assert (UNICODE_RANGES !! "thai" = None) as Hbad
    by (vm_compute; reflexivity).
  split; [exact Hpre|]. split; [exact Hbad|].
  exact (selected_ranges_missing _ _ _ Hpre Hbad).
Defined.

(** X11. The tables are closed: every script a language of
    [LANGUAGE_RANGES] lists is a key of [UNICODE_RANGES], so the
    [KeyError] of lines 83 and 85 cannot occur, for any language that
    passes the test of line 78. *)
Theorem LANGUAGE_RANGES_closed language scripts :
  LANGUAGE_RANGES !! language = Some scripts →
  (∀ script, script ∈ scripts → is_Some (UNICODE_RANGES !! script))
  ∧ ∃ ranges, selected_ranges scripts = Ok ranges.
Proof.
  intros Hl. split.
  - apply LANGUAGE_RANGES_lookup in Hl.
    assert (Forall (λ kv : string * list string,
                      Forall (λ script, is_Some (UNICODE_RANGES !! script))
                        kv.2)
              LANGUAGE_RANGES_items) as Hall by by_computation.
    rewrite Forall_forall in Hall. apply Forall_forall, (Hall _ Hl).
  - apply LANGUAGE_RANGES_profile_ok in Hl. unfold profile_ok in Hl.
    destruct (selected_ranges scripts) as [ranges|]; [by exists ranges|done].
Qed.

Lemma LANGUAGE_RANGES_closed_witness :
  LANGUAGE_RANGES !! "el" = Some ["latin"; "greek"]
  ∧ (∀ script, script ∈ ["latin"; "greek"] →
       is_Some (UNICODE_RANGES !! script))
  ∧ ∃ ranges, selected_ranges ["latin"; "greek"] = Ok ranges.
Proof.
  assert (LANGUAGE_RANGES !! "el" = Some ["latin"; "greek"]) as Hl
    by (vm_compute; reflexivity).
  split; [exact Hl|].
  exact (LANGUAGE_RANGES_closed "el" _ Hl).
Defined.

(** ** [main] *)

(** X12. When the resolver returns and the converter completes, [main]
    returns 0 after four events: the heading, the command line joined
    with spaces, the run of the command, and the line that names the
    language and the output file. *)
Theorem main_success
    set_iter SCRIPT_DIR subprocess_run (a : args) low high :
  get_unicode_ranges set_iter (language a) = Ok (low, high) →
  subprocess_run (build_cmd SCRIPT_DIR a low high) = None →
  main set_iter SCRIPT_DIR subprocess_run a
  = ([ Print "Running command:";
       Print (str_join " " (build_cmd SCRIPT_DIR a low high));
       SubprocessRun (build_cmd SCRIPT_DIR a low high);
       Print ("Generated font for " +:+ language a +:+ " at " +:+ output a) ],
     Ok 0).
Proof.
  intros Hget Hrun. unfold main. rewrite Hget.
  cbn [io_lift io_bind try_except print run io_ret app].
  by rewrite Hrun.
Qed.

(** X13. When the converter exits with a failure
    ([CalledProcessError]), [main] prints the error after the run and
    returns 1; the line that reports a generated font is not printed. *)
Theorem main_converter_failed
    set_iter SCRIPT_DIR subprocess_run (a : args) low high msg :
  get_unicode_ranges set_iter (language a) = Ok (low, high) →
  subprocess_run (build_cmd SCRIPT_DIR a low high)
  = Some (CalledProcessError msg) →
  main set_iter SCRIPT_DIR subprocess_run a
  = ([ Print "Running command:";
       Print (str_join " " (build_cmd SCRIPT_DIR a low high));
       SubprocessRun (build_cmd SCRIPT_DIR a low high);
       Print ("Error running lv_font_conv: " +:+ msg) ],
     Ok 1).
Proof.
  intros Hget Hrun. unfold main. rewrite Hget.
  cbn [io_lift io_bind try_except print run io_ret app].
  by rewrite Hrun.
Qed.

(** X14. When the converter cannot be started ([FileNotFoundError]),
    [main] prints the hint to install it and returns 1. *)
Theorem main_converter_missing
    set_iter SCRIPT_DIR subprocess_run (a : args) low high :
  get_unicode_ranges set_iter (language a) = Ok (low, high) →
  subprocess_run (build_cmd SCRIPT_DIR a low high)
  = Some FileNotFoundError →
  main set_iter SCRIPT_DIR subprocess_run a
  = ([ Print "Running command:";
       Print (str_join " " (build_cmd SCRIPT_DIR a low high));
       SubprocessRun (build_cmd SCRIPT_DIR a low high);
       Print ("Error: lv_font_conv not found. Please install it using: "
              +:+ "npm install -g lv_font_conv") ],
     Ok 1).
Proof.
  intros Hget Hrun. unfold main. rewrite Hget.
  cbn [io_lift io_bind try_except print run io_ret app].
  by rewrite Hrun.
Qed.

(** X15. Any other exception of the run is not handled: [main] raises it
    to its caller, having printed nothing after the run. *)
Theorem main_other_exception
    set_iter SCRIPT_DIR subprocess_run (a : args) low high e :
  get_unicode_ranges set_iter (language a) = Ok (low, high) →
  subprocess_run (build_cmd SCRIPT_DIR a low high) = Some e →
  (∀ msg, e ≠ CalledProcessError msg) →
  e ≠ FileNotFoundError →
  main set_iter SCRIPT_DIR subprocess_run a
  = ([ Print "Running command:";
       Print (str_join " " (build_cmd SCRIPT_DIR a low high));
       SubprocessRun (build_cmd SCRIPT_DIR a low high) ],
     Raise e).
Proof.
  intros Hget Hrun Hcpe Hfnf. unfold main. rewrite Hget.
  cbn [io_lift io_bind try_except print run io_ret app].
  rewrite Hrun. destruct e as [| |msg|]; try done.
  by destruct (Hcpe msg).
Qed.

(** X16. For every input, [main] returns no value other than 0 and 1; it
    returns 0 exactly when the resolver returned and the converter
    completed; and whatever it runs is the argument list built from the
    two strings of the resolver. *)
Theorem main_exit_code set_iter SCRIPT_DIR subprocess_run (a : args) :
  (∀ n, (main set_iter SCRIPT_DIR subprocess_run a).2 = Ok n →
        n = 0 ∨ n = 1)
  ∧ ((main set_iter SCRIPT_DIR subprocess_run a).2 = Ok 0 ↔
     ∃ low high,
       get_unicode_ranges set_iter (language a) = Ok (low, high)
       ∧ subprocess_run (build_cmd SCRIPT_DIR a low high) = None)
  ∧ (∀ cmd,
       SubprocessRun cmd ∈ (main set_iter SCRIPT_DIR subprocess_run a).1 →
       ∃ low high,
         get_unicode_ranges set_iter (language a) = Ok (low, high)
         ∧ cmd = build_cmd SCRIPT_DIR a low high).
Proof.
  unfold main.
  destruct (get_unicode_ranges set_iter (language a)) as [[low high]|e0].
  - cbn [io_lift io_bind try_except print run io_ret app].
    destruct (subprocess_run (build_cmd SCRIPT_DIR a low high))
      as [[| | |]|] eqn:Hrun;
      cbn [io_lift io_bind try_except print run io_ret app snd fst];
      (split; [intros n [= <-]; auto|]);
      (split;
       [split;
        [(intros _; by exists low, high) || intros [=]
        |intros (l & h & [= <- <-] & Hr); congruence]
       |intros cmd Hin; exists low, high; split; [done|];
        do 2 (apply elem_of_cons in Hin as [[=]|Hin]);
        apply elem_of_cons in Hin as [[= ->]|Hin]; [done|];
        repeat (apply elem_of_cons in Hin as [[=]|Hin]);
        by apply elem_of_nil in Hin]).
  - cbn [io_lift io_bind snd fst]. split; [done|]. split.
    + split; [done|]. by intros (? & ? & ? & _).
    + by intros cmd ?%elem_of_nil.
Qed.

Lemma get_unicode_ranges_en_US_value :
  get_unicode_ranges elements (language args_en_US)
  = Ok (LOW_EN_US, HIGH_EMOJI).
Proof. vm_compute. reflexivity. Qed.

Lemma main_success_witness :
  get_unicode_ranges elements (language args_en_US)
  = Ok (LOW_EN_US, HIGH_EMOJI)
  ∧ run_completes (build_cmd "/opt/tool" args_en_US LOW_EN_US HIGH_EMOJI)
    = None
  ∧ main elements "/opt/tool" run_completes args_en_US
    = ([ Print "Running command:";
         Print (str_join " "
                  (build_cmd "/opt/tool" args_en_US LOW_EN_US HIGH_EMOJI));
         SubprocessRun
           (build_cmd "/opt/tool" args_en_US LOW_EN_US HIGH_EMOJI);
         Print ("Generated font for " +:+ language args_en_US +:+ " at "
                +:+ output args_en_US) ],
       Ok 0).
Proof.
  split; [exact get_unicode_ranges_en_US_value|]. split; [reflexivity|].
  exact (main_success elements "/opt/tool" run_completes args_en_US _ _
           get_unicode_ranges_en_US_value eq_refl).
Defined.

Lemma main_converter_failed_witness :
  get_unicode_ranges elements (language args_en_US)
  = Ok (LOW_EN_US, HIGH_EMOJI)
  ∧ run_exits_nonzero
      (build_cmd "/opt/tool" args_en_US LOW_EN_US HIGH_EMOJI)
    = Some (CalledProcessError "returned non-zero exit status 1")
  ∧ main elements "/opt/tool" run_exits_nonzero args_en_US
    = ([ Print "Running command:";
         Print (str_join " "
                  (build_cmd "/opt/tool" args_en_US LOW_EN_US HIGH_EMOJI));
         SubprocessRun
           (build_cmd "/opt/tool" args_en_US LOW_EN_US HIGH_EMOJI);
         Print ("Error running lv_font_conv: "
                +:+ "returned non-zero exit status 1") ],
       Ok 1).
Proof.
  split; [exact get_unicode_ranges_en_US_value|]. split; [reflexivity|].
  exact (main_converter_failed elements "/opt/tool" run_exits_nonzero
           args_en_US _ _ _ get_unicode_ranges_en_US_value eq_refl).
Defined.

Lemma main_converter_missing_witness :
  get_unicode_ranges elements (language args_en_US)
  = Ok (LOW_EN_US, HIGH_EMOJI)
  ∧ run_not_found (build_cmd "/opt/tool" args_en_US LOW_EN_US HIGH_EMOJI)
    = Some FileNotFoundError
  ∧ main elements "/opt/tool" run_not_found args_en_US
    = ([ Print "Running command:";
         Print (str_join " "
                  (build_cmd "/opt/tool" args_en_US LOW_EN_US HIGH_EMOJI));
         SubprocessRun
           (build_cmd "/opt/tool" args_en_US LOW_EN_US HIGH_EMOJI);
         Print ("Error: lv_font_conv not found. Please install it using: "
                +:+ "npm install -g lv_font_conv") ],
       Ok 1).
Proof.
  split; [exact get_unicode_ranges_en_US_value|]. split; [reflexivity|].
  exact (main_converter_missing elements "/opt/tool" run_not_found
           args_en_US _ _ get_unicode_ranges_en_US_value eq_refl).
Defined.

Lemma main_other_exception_witness :
  get_unicode_ranges elements (language args_en_US)
  = Ok (LOW_EN_US, HIGH_EMOJI)
  ∧ run_rejects_arguments
      (build_cmd "/opt/tool" args_en_US LOW_EN_US HIGH_EMOJI)
    = Some (ValueError "embedded null byte")
  ∧ (∀ msg, ValueError "embedded null byte" ≠ CalledProcessError msg)
  ∧ ValueError "embedded null byte" ≠ FileNotFoundError
  ∧ main elements "/opt/tool" run_rejects_arguments args_en_US
    = ([ Print "Running command:";
         Print (str_join " "
                  (build_cmd "/opt/tool" args_en_US LOW_EN_US HIGH_EMOJI));
         SubprocessRun
           (build_cmd "/opt/tool" args_en_US LOW_EN_US HIGH_EMOJI) ],
       Raise (ValueError "embedded null byte")).
Proof.
  assert (∀ msg, ValueError "embedded null byte" ≠ CalledProcessError msg)
    as Hcpe by (intros msg; discriminate).
  assert (ValueError "embedded null byte" ≠ FileNotFoundError) as Hfnf
    by discriminate.
  split; [exact get_unicode_ranges_en_US_value|]. split; [reflexivity|].
  split; [exact Hcpe|]. split; [exact Hfnf|].
  exact (main_other_exception elements "/opt/tool" run_rejects_arguments
           args_en_US _ _ _ get_unicode_ranges_en_US_value eq_refl
           Hcpe Hfnf).
Defined.

Lemma main_exit_code_witness :
  (main elements "/opt/tool" run_not_found args_en_US).2 = Ok 1
  ∧ (1 = 0 ∨ 1 = 1).
Proof.
  assert ((main elements "/opt/tool" run_not_found args_en_US).2 = Ok 1)
    as Hn by (vm_compute; reflexivity).
  split; [exact Hn|].
  exact (proj1 (main_exit_code elements "/opt/tool" run_not_found
                  args_en_US) 1 Hn).
Defined.

(** ** The font paths *)

(** X17. The four font paths are the four file names appended to one
    prefix, which is [SCRIPT_DIR] followed by a slash unless it is empty
    or ends with one; the four paths are pairwise different. *)
Theorem font_paths SCRIPT_DIR :
  ∃ sep,
    (sep = "" ∨ sep = "/")
    ∧ (sep = "" ↔ SCRIPT_DIR = "" ∨ ends_with_slash SCRIPT_DIR = true)
    ∧ [ UNIFONT_PATH SCRIPT_DIR; UNIFONT_UPPER_PATH SCRIPT_DIR;
        UNIFONT_JP_PATH SCRIPT_DIR; NERD_FONT_PATH SCRIPT_DIR ]
      = String.app (SCRIPT_DIR +:+ sep) <$> FONT_FILES
    ∧ NoDup [ UNIFONT_PATH SCRIPT_DIR; UNIFONT_UPPER_PATH SCRIPT_DIR;
              UNIFONT_JP_PATH SCRIPT_DIR; NERD_FONT_PATH SCRIPT_DIR ].
Proof.
  assert (NoDup FONT_FILES) as Hnd by by_computation.
  assert (∀ a b c : string, (a +:+ b) +:+ c = a +:+ b +:+ c) as Hassoc.
  { intros a b c. induction a as [|x a IH]; [done|].
    exact (f_equal (String x) IH). }
  assert (∀ a : string, a +:+ "" = a) as Hnil.
  { intros a. induction a as [|x a IH]; [done|].
    exact (f_equal (String x) IH). }
  assert (∃ sep,
            (sep = "" ∨ sep = "/")
            ∧ (sep = "" ↔ SCRIPT_DIR = "" ∨ ends_with_slash SCRIPT_DIR = true)
            ∧ [ UNIFONT_PATH SCRIPT_DIR; UNIFONT_UPPER_PATH SCRIPT_DIR;
                UNIFONT_JP_PATH SCRIPT_DIR; NERD_FONT_PATH SCRIPT_DIR ]
              = String.app (SCRIPT_DIR +:+ sep) <$> FONT_FILES)
    as (sep & Hsep & Hiff & Heq).
  { unfold UNIFONT_PATH, UNIFONT_UPPER_PATH, UNIFONT_JP_PATH,
      NERD_FONT_PATH, path_join, FONT_FILES.
    cbn [fmap list_fmap].
    destruct SCRIPT_DIR as [|c dir] eqn:Hdir.
    - exists "". split; [by left|]. split; [by split; [left|]|]. done.
    - rewrite <-Hdir.
      assert (truthy SCRIPT_DIR = true) as -> by by rewrite Hdir.
      cbn [negb orb].
      destruct (ends_with_slash SCRIPT_DIR) eqn:Hend.
      + exists "". split; [by left|]. split; [by split; [right|]|].
        by rewrite Hnil.
      + exists "/". split; [by right|]. split.
        { split; [done|]. intros [?|?]; [by subst|done]. }
        by rewrite !Hassoc. }
  exists sep. split; [done|]. split; [done|]. split; [done|].
  rewrite Heq. exact (NoDup_fmap_2 (String.app (SCRIPT_DIR +:+ sep)) _ Hnd).
Qed.

(** ** A group that is already in order *)

Lemma stable_sort_sorted_id {A} (l : list (Z * A)) :
  StronglySorted key_le l → stable_sort l = l.
Proof.
  induction 1 as [|x l Hl IH Hx]; [done|]. simpl. rewrite IH.
  destruct Hx as [|y l Hxy _]; [done|]. simpl.
  unfold key_le in Hxy. destruct (Z.leb_spec x.1 y.1); [done|lia].
Qed.

Lemma sorted_by_start_id parts :
  StronglySorted start_le parts → sorted_by_start parts = parts.
Proof.
  intros Hs. unfold sorted_by_start. rewrite stable_sort_sorted_id.
  - rewrite <-list_fmap_compose. apply list_fmap_id.
  - induction Hs as [|x l Hl IH Hx]; [constructor|].
    cbn [fmap list_fmap]. constructor; [done|].
    apply Forall_fmap. eapply Forall_impl; [exact Hx|]. done.
Qed.

(** X18. A single group whose tokens all start below 0x10000 and are in
    ascending order of start comes back unchanged as the low string,
    with an empty high string: splitting, sorting and joining restore
    the group string. *)
Theorem partition_sort_join_sorted_group group :
  Forall (λ tok, parses tok ∧ is_low tok) (str_split "," group) →
  StronglySorted start_le (str_split "," group) →
  partition_sort_join [group] = Ok (group, "").
Proof.
  intros [Hp Hlow]%Forall_and Hs.
  assert (tokens [group] = str_split "," group) as Htok.
  { unfold tokens. cbn [mbind list_bind]. apply app_nil_r. }
  rewrite partition_sort_join_ok by by rewrite Htok.
  rewrite Htok.
  assert (filter is_low (str_split "," group) = str_split "," group) as ->.
  { clear Hs Hp Htok. induction Hlow as [|x l Hx _ IH]; [done|].
    rewrite filter_cons, decide_True by done. by rewrite IH. }
  assert (filter is_high (str_split "," group) = []) as ->.
  { clear Hs Hp Htok. induction Hlow as [|x l Hx _ IH]; [done|].
    rewrite filter_cons, decide_False; [done|].
    unfold is_low, is_high in *. lia. }
  rewrite (sorted_by_start_id _ Hs).
  by rewrite (str_join_split "," group).
Qed.

Lemma partition_sort_join_sorted_group_witness :
  Forall (λ tok, parses tok ∧ is_low tok)
    (str_split "," "0x3040-0x309F,0x30A0-0x30FF,0x4E00-0x9FFF")
  ∧ StronglySorted start_le
      (str_split "," "0x3040-0x309F,0x30A0-0x30FF,0x4E00-0x9FFF")
  ∧ partition_sort_join ["0x3040-0x309F,0x30A0-0x30FF,0x4E00-0x9FFF"]
    = Ok ("0x3040-0x309F,0x30A0-0x30FF,0x4E00-0x9FFF", "").
Proof.
  assert (Forall (λ tok, parses tok ∧ is_low tok)
            (str_split "," "0x3040-0x309F,0x30A0-0x30FF,0x4E00-0x9FFF"))
    as Hlow by (apply (bool_decide_unpack _); vm_compute; exact I).
  assert (StronglySorted start_le
            (str_split "," "0x3040-0x309F,0x30A0-0x30FF,0x4E00-0x9FFF"))
    as Hs by (apply (bool_decide_unpack _); vm_compute; exact I).
  split; [exact Hlow|]. split; [exact Hs|].
  exact (partition_sort_join_sorted_group _ Hlow Hs).
Defined.
